(** * Stateful ODE solvers of ContinuousNet

    A shallow embedding of [continuous_net_jax/stateful_ode_solvers.py]:
    the four single-step integration schemes ([Euler], [Midpoint], [RK4],
    [RK4_38]), the name table [SCHEME_TABLE] and the two step drivers
    ([StateOdeIntegrateFast], [StateOdeIntegrateWithPoints]).

    Conventions of the embedding.
    - A Python float is an exact rational ([Qc], the canonical rationals, so
      that equal values are equal terms): the schemes and drivers are
      embedded without rounding.  Where rounding decides a property, the
      float expressions concerned are also computed in binary64 (module
      [b64], on the Standard Library's [SpecFloat]).
    - [ArrayType] is declared in [continuous_types], which the module imports
      with a star; it is a parameter here, given by the operations the
      solvers apply to it (class [ArrayOps]).
    - Calls of the collaborators ([params_of_t], the rate equation [f], the
      scheme handed to a driver) are recorded in a trace, and Python
      exceptions are results, so that the order of the calls and the place
      where a run stops can be stated. *)

From Stdlib Require Import QArith Qcanon Lqa.
From stdpp Require Import base numbers list strings gmap.
From Stdlib Require SpecFloat.

Local Open Scope Qc_scope.

(** ** Floats *)

Abbreviation float := Qc (only parsing).

(** A float with an integer value: [fl 3] is [3.0], and an [int] promoted
    to float.  The other literals are quotients: [0.5] is [fl 1 / fl 2] and
    [1.0e-5] is [fl 1 / fl 100000]. *)
Definition fl (n : Z) : float := Q2Qc (inject_Z n).

(** ** Python exceptions and results *)

Inductive exn : Type :=
  | ZeroDivisionError
  | ValueError
  | TypeError
  | KeyError (key : string).

Inductive result (A : Type) : Type :=
  | Ok (a : A)
  | Raise (e : exn).
Arguments Ok {A} a.
Arguments Raise {A} e.

Global Instance exn_eq_dec : EqDecision exn.
Proof. solve_decision. Defined.

(** [a / n] for a float [a] and a Python int [n]. *)
Definition float_div_int (a : float) (n : Z) : result float :=
  if decide (n = 0%Z) then Raise ZeroDivisionError else Ok (a / fl n).

(** ** Arrays *)

(** The operations of the solvers on [ArrayType]: [+] and [-] of two arrays,
    [*] of a float and an array, and iteration over the leading axis, which
    is what the tuple assignment [state, x = v] does when [v] is an array.
    [arows] is [None] when the value cannot be iterated (a Python float, a
    0-d array).  The arithmetic is total: by the contract of the rate
    equation the derivative has the shape of the state. *)
Class ArrayOps (X : Type) : Type := {
  aadd : X → X → X;
  asub : X → X → X;
  smul : float → X → X;
  arows : X → option (list X);
}.

Declare Scope arr_scope.
Delimit Scope arr_scope with arr.
Infix "⊞" := aadd (at level 50, left associativity) : arr_scope.
Infix "⊟" := asub (at level 50, left associativity) : arr_scope.
Infix "⊙" := smul (at level 40, left associativity) : arr_scope.
Local Open Scope arr_scope.

(** The module laws of scaling, which relate the groupings of the code to
    the groupings of the tableaus. *)
Class ArrayLaws (X : Type) `{ArrayOps X} : Prop := {
  smul_assoc : ∀ (a b : float) (v : X), a ⊙ (b ⊙ v) = (a * b) ⊙ v;
  smul_1_l : ∀ v : X, 1 ⊙ v = v;
}.

(** A scalar state: a Python float, which cannot be iterated. *)
Global Instance float_array : ArrayOps float := {|
  aadd := Qcplus;
  asub := Qcminus;
  smul := Qcmult;
  arows := λ _, None;
|}.

(** ** numpy *)

Module onp.

(** [arange(0, num)] as floats. *)
Definition arange (num : nat) : list float :=
  (λ i, fl (Z.of_nat i)) <$> seq 0 num.

(** [y[-1] = stop] *)
Definition set_last (y : list float) (stop : float) : list float :=
  <[Nat.pred (length y) := stop]> y.

(** [numpy.linspace(start, stop, num)] with its default [endpoint=True]:
    [num] samples, the last of which is [stop] itself. *)
Definition linspace (start stop : float) (num : Z) : result (list float) :=
  if decide (num < 0)%Z then Raise ValueError
  else
    let div := (num - 1)%Z in
    let delta := stop - start in
    let y := arange (Z.to_nat num) in
    let y :=
      if decide (0 < div)%Z then
        let step := delta / fl div in
        if decide (step = 0) then (λ v, v / fl div * delta) <$> y
        else (λ v, v * step) <$> y
      else (λ v, v * delta) <$> y in
    let y := (λ v, v + start) <$> y in
    let y := if decide (1 < num)%Z then set_last y stop else y in
    Ok y.

End onp.

(** ** Traced computations *)

(** A computation that may raise, and that logs events of type [E]. *)
Definition M (E A : Type) : Type := result A * list E.

Definition outcome {E A} (m : M E A) : result A := m.1.
Definition trace {E A} (m : M E A) : list E := m.2.

Global Instance M_ret {E} : MRet (M E) := λ A a, (Ok a, []).
Global Instance M_bind {E} : MBind (M E) := λ A B k m,
  match outcome m with
  | Ok a => let r := k a in (outcome r, trace m ++ trace r)
  | Raise e => (Raise e, trace m)
  end.

Definition tell {E} (evs : list E) : M E unit := (Ok tt, evs).
Definition lift {E A} (r : result A) : M E A := (r, []).

Section Solvers.

Context {Params Aux X : Type} `{ArrayOps X}.

Definition ContinuousParameters : Type := float → Params.
Definition RateEquation : Type := Params → X → Aux * X.

(** What one scheme call does to its collaborators, in order. *)
Inductive event : Type :=
  | EvParams (t : float)                       (* params_of_t(t) *)
  | EvRate (p : Params) (x : X) (state : Aux). (* f(p, x), and the state it emitted *)

(** What a Python function body hands back: the tuple [state, x], or a
    bare array. *)
Inductive retval : Type :=
  | RetTuple (state : Aux) (x : X)
  | RetArray (x : X).

Definition IntegrationScheme : Type :=
  ContinuousParameters → X → float → RateEquation → float → M event retval.

(** What a driver does: one record per [scheme(params_of_t, x, t, f, dt)],
    with the events of that call. *)
Record scheme_call : Type := SchemeCall {
  call_x : X;
  call_t : float;
  call_dt : float;
  call_events : list event;
}.

(** [f(params_of_t(t), x)]: the argument is evaluated, then [f] is called. *)
Definition call_rate (f : RateEquation) (params_of_t : ContinuousParameters)
    (t : float) (x : X) : M event (Aux * X) :=
  _ ← tell [EvParams t];
  let p := params_of_t t in
  _ ← tell [EvRate p x (f p x).1];
  mret (f p x).

(** [state, x = v]: a tuple of two is taken apart; anything else is
    iterated, and must yield exactly two items.  The drivers never read
    [state], so only [x] is kept. *)
Definition unpack_pair {E} (v : retval) : M E X :=
  match v with
  | RetTuple _ x => mret x
  | RetArray a =>
      match arows a with
      | None => lift (Raise TypeError)
      | Some [_; x] => mret x
      | Some _ => lift (Raise ValueError)
      end
  end.

(** ** Integrators *)

Definition DT_OPEN_SET_EPS : float := fl 1 / fl 100000.

(** Forward Euler, O(Dt). *)
Definition Euler : IntegrationScheme := λ params_of_t x t0 f Dt,
  '(state1, k1) ← call_rate f params_of_t t0 x;
  mret (RetTuple state1 (x ⊞ Dt ⊙ k1)).

(** Explicit Midpoint, a two stage Runge Kutta, O(Dt^2). *)
Definition Midpoint : IntegrationScheme := λ params_of_t x t0 f Dt,
  '(state1, k1) ← call_rate f params_of_t t0 x;
  let x1 := x ⊞ (fl 1 / fl 2 * Dt) ⊙ k1 in
  '(state2, k2) ← call_rate f params_of_t (t0 + fl 1 / fl 2 * Dt) x1;
  mret (RetTuple state2 (x ⊞ Dt ⊙ k2)).

(** The 'classic' RK4, a four stage Runge Kutta, O(Dt^4). *)
Definition RK4 : IntegrationScheme := λ params_of_t x t0 f Dt,
  '(state1, k1) ← call_rate f params_of_t t0 x;
  let x1 := x ⊞ (fl 1 / fl 2 * Dt) ⊙ k1 in
  '(state2, k2) ← call_rate f params_of_t (t0 + fl 1 / fl 2 * Dt) x1;
  let x2 := x ⊞ (fl 1 / fl 2 * Dt) ⊙ k2 in
  '(state3, k3) ← call_rate f params_of_t (t0 + fl 1 / fl 2 * Dt) x2;
  let x3 := x ⊞ Dt ⊙ k3 in
  '(state4, k4) ← call_rate f params_of_t (t0 + Dt - DT_OPEN_SET_EPS) x3;
  mret (RetArray
          (x ⊞ Dt ⊙ ((fl 1 / fl 6) ⊙ k1 ⊞ (fl 1 / fl 3) ⊙ k2
                      ⊞ (fl 1 / fl 3) ⊙ k3 ⊞ (fl 1 / fl 6) ⊙ k4))).

(** The 3/8s RK4, a four stage Runge Kutta, O(Dt^4). *)
Definition RK4_38 : IntegrationScheme := λ params_of_t x t0 f Dt,
  '(state1, k1) ← call_rate f params_of_t t0 x;
  let x1 := x ⊞ (fl 1 / fl 3 * Dt) ⊙ k1 in
  '(state2, k2) ← call_rate f params_of_t (t0 + fl 1 / fl 3 * Dt) x1;
  let x2 := x ⊞ Dt ⊙ ((- fl 1 / fl 3) ⊙ k1 ⊞ fl 1 ⊙ k2) in
  '(state3, k3) ← call_rate f params_of_t (t0 + fl 2 / fl 3 * Dt) x2;
  let x3 := x ⊞ Dt ⊙ (k1 ⊟ k2 ⊞ k3) in
  '(state4, k4) ← call_rate f params_of_t (t0 + Dt - DT_OPEN_SET_EPS) x3;
  let xf := x ⊞ Dt ⊙ ((fl 1 / fl 8) ⊙ k1 ⊞ (fl 3 / fl 8) ⊙ k2
                       ⊞ (fl 3 / fl 8) ⊙ k3 ⊞ (fl 1 / fl 8) ⊙ k4) in
  mret (RetTuple state4 xf).

Definition SCHEME_TABLE : gmap string IntegrationScheme :=
  <["RK4_38" := RK4_38]> (<["RK4" := RK4]>
    (<["Midpoint" := Midpoint]> (<["Euler" := Euler]> ∅))).

(** [SCHEME_TABLE[name]] *)
Definition SCHEME_TABLE_getitem (name : string) : result IntegrationScheme :=
  match SCHEME_TABLE !! name with
  | Some scheme => Ok scheme
  | None => Raise (KeyError name)
  end.

(** ** Step drivers *)

(** The loop statement of both drivers:
    [state, x = scheme(params_of_t, x, t, f, dt)]. *)
Definition scheme_step (scheme : IntegrationScheme)
    (params_of_t : ContinuousParameters) (f : RateEquation) (dt : float)
    (t : float) (x : X) : M scheme_call X :=
  let run := scheme params_of_t x t f dt in
  _ ← tell [SchemeCall x t dt (trace run)];
  v ← lift (outcome run);
  unpack_pair v.

(** [for t in ts: body], with the loop variables in [a]. *)
Fixpoint for_each {E A} (ts : list float) (body : float → A → M E A) (a : A)
    : M E A :=
  match ts with
  | [] => mret a
  | t :: ts' => a' ← body t a; for_each ts' body a'
  end.

Definition StateOdeIntegrateFast (params_of_t : ContinuousParameters) (x : X)
    (f : RateEquation) (scheme : IntegrationScheme) (n_step : Z)
    : M scheme_call X :=
  dt ← lift (float_div_int (fl 1) n_step);
  ts ← lift (onp.linspace (fl 0) (fl 1) n_step);
  for_each ts (scheme_step scheme params_of_t f dt) x.

(** The loop body of [StateOdeIntegrateWithPoints]: the step, then
    [xs.append(onp.array(x))]. *)
Definition record_step (scheme : IntegrationScheme)
    (params_of_t : ContinuousParameters) (f : RateEquation) (dt : float)
    (t : float) (loop_vars : X * list X) : M scheme_call (X * list X) :=
  let '(x, xs) := loop_vars in
  x ← scheme_step scheme params_of_t f dt t x;
  mret (x, xs ++ [x]).

Definition StateOdeIntegrateWithPoints (params_of_t : ContinuousParameters)
    (x : X) (f : RateEquation) (scheme : IntegrationScheme) (n_step : Z)
    : M scheme_call (list X) :=
  dt ← lift (float_div_int (fl 1) n_step);
  let xs := [x] in
  ts ← lift (onp.linspace (fl 0) (fl 1) n_step);
  '(_, xs) ← for_each ts (record_step scheme params_of_t f dt) (x, xs);
  mret xs.

End Solvers.

(** ** Observations on traces *)

Section Observations.

Context {Params Aux X : Type}.

(** The times at which [params_of_t] was asked. *)
Definition param_queries (tr : list (@event Params Aux X)) : list float :=
  omap (λ e, match e with EvParams t => Some t | _ => None end) tr.

(** The arguments of the calls of the rate equation. *)
Definition rate_calls (tr : list (@event Params Aux X)) : list (Params * X) :=
  omap (λ e, match e with EvRate p x _ => Some (p, x) | _ => None end) tr.

(** The auxiliary states the rate equation emitted. *)
Definition emitted_states (tr : list (@event Params Aux X)) : list Aux :=
  omap (λ e, match e with EvRate _ _ s => Some s | _ => None end) tr.

(** A run hands back the tuple [(state, x)] whose [state] is the one the
    last call of the rate equation emitted. *)
Definition returns_final_state (m : M (@event Params Aux X) (@retval Aux X))
    : Prop :=
  ∃ state x, outcome m = Ok (RetTuple state x)
             ∧ last (emitted_states (trace m)) = Some state.

(** A scheme that honours the Scheme contract: every call hands back a
    tuple [(state, x)]. *)
Definition returns_tuple (scheme : @IntegrationScheme Params Aux X) : Prop :=
  ∀ params_of_t x t f dt, ∃ state x',
    outcome (scheme params_of_t x t f dt) = Ok (RetTuple state x').

(** [t] lies in the half-open step interval that starts at [t0]. *)
Definition in_step (t0 Dt t : float) : Prop := t0 ≤ t < t0 + Dt.

End Observations.

(** ** The states a driver goes through *)

Section Orbits.

Context {Params Aux X : Type}.
Variables (scheme : @IntegrationScheme Params Aux X).
Variables (params_of_t : float → Params) (f : Params → X → Aux * X).
Variable dt : float.

(** The state after the step that starts at [t] in state [x], for a step
    that hands back a tuple. *)
Definition next_state (t : float) (x : X) : X :=
  match outcome (scheme params_of_t x t f dt) with
  | Ok (RetTuple _ x') => x'
  | _ => x
  end.

(** The start state followed by the state after each step of the grid. *)
Fixpoint orbit (ts : list float) (x : X) : list X :=
  match ts with
  | [] => [x]
  | t :: ts' => x :: orbit ts' (next_state t x)
  end.

(** The record of the scheme calls of such a run. *)
Fixpoint orbit_calls (ts : list float) (x : X) : list scheme_call :=
  match ts with
  | [] => []
  | t :: ts' =>
      SchemeCall x t dt (trace (scheme params_of_t x t f dt))
      :: orbit_calls ts' (next_state t x)
  end.

End Orbits.

(** ** The tableaus as the specification words them *)

Section Tableaus.

Context {Params Aux X : Type} `{ArrayOps X}.

(** An array divided by a float, and the opposite of an array. *)
Definition adiv (k : X) (c : float) : X := (fl 1 / c) ⊙ k.
Definition aopp (k : X) : X := (- fl 1) ⊙ k.
Infix "⊘" := adiv (at level 40, left associativity).

(** RK4: [x1 = x+0.5·Dt·k1]; [x2 = x+0.5·Dt·k2]; [x3 = x+Dt·k3];
    [x_new = x + Dt·(k1/6 + k2/3 + k3/3 + k4/6)], with the stage times
    [t0], [t0+Dt/2], [t0+Dt/2], [t0+Dt-ε].  The result is the list of the
    points where the rate equation is evaluated, and the new state. *)
Definition RK4_spec (params_of_t : float → Params) (x : X) (t0 : float)
    (f : Params → X → Aux * X) (Dt : float) : list (Params * X) * X :=
  let eps := fl 1 / fl 100000 in
  let k1 := (f (params_of_t t0) x).2 in
  let x1 := x ⊞ (fl 1 / fl 2 * Dt) ⊙ k1 in
  let k2 := (f (params_of_t (t0 + Dt / fl 2)) x1).2 in
  let x2 := x ⊞ (fl 1 / fl 2 * Dt) ⊙ k2 in
  let k3 := (f (params_of_t (t0 + Dt / fl 2)) x2).2 in
  let x3 := x ⊞ Dt ⊙ k3 in
  let k4 := (f (params_of_t (t0 + Dt - eps)) x3).2 in
  ([(params_of_t t0, x); (params_of_t (t0 + Dt / fl 2), x1);
    (params_of_t (t0 + Dt / fl 2), x2); (params_of_t (t0 + Dt - eps), x3)],
   x ⊞ Dt ⊙ (k1 ⊘ fl 6 ⊞ k2 ⊘ fl 3 ⊞ k3 ⊘ fl 3 ⊞ k4 ⊘ fl 6)).

(** RK4_38: [x1 = x + Dt·k1/3]; [x2 = x + Dt·(-k1/3 + k2)];
    [x3 = x + Dt·(k1 − k2 + k3)];
    [x_new = x + Dt·(k1/8 + 3·k2/8 + 3·k3/8 + k4/8)], with the stage times
    [t0], [t0+Dt/3], [t0+2Dt/3], [t0+Dt-ε]. *)
Definition RK4_38_spec (params_of_t : float → Params) (x : X) (t0 : float)
    (f : Params → X → Aux * X) (Dt : float) : list (Params * X) * X :=
  let eps := fl 1 / fl 100000 in
  let k1 := (f (params_of_t t0) x).2 in
  let x1 := x ⊞ (Dt ⊙ k1) ⊘ fl 3 in
  let k2 := (f (params_of_t (t0 + Dt / fl 3)) x1).2 in
  let x2 := x ⊞ Dt ⊙ (aopp k1 ⊘ fl 3 ⊞ k2) in
  let k3 := (f (params_of_t (t0 + fl 2 * Dt / fl 3)) x2).2 in
  let x3 := x ⊞ Dt ⊙ (k1 ⊟ k2 ⊞ k3) in
  let k4 := (f (params_of_t (t0 + Dt - eps)) x3).2 in
  ([(params_of_t t0, x); (params_of_t (t0 + Dt / fl 3), x1);
    (params_of_t (t0 + fl 2 * Dt / fl 3), x2);
    (params_of_t (t0 + Dt - eps), x3)],
   x ⊞ Dt ⊙ (k1 ⊘ fl 8 ⊞ (fl 3 ⊙ k2) ⊘ fl 8 ⊞ (fl 3 ⊙ k3) ⊘ fl 8
              ⊞ k4 ⊘ fl 8)).

End Tableaus.

(** ** Test fixtures *)

Definition unit_params : float → unit := λ _, tt.

(** [f(p, x) = (None, -x)]: exponential decay. *)
Definition decay : unit → float → unit * float := λ _ x, (tt, - x).

(** A rate equation whose auxiliary state tells the calls apart: it emits
    the state it was evaluated at. *)
Definition echo : unit → float → float * float := λ _ x, (x, - x).

(** ** Observations on whole runs *)

Section RunObservations.

Context {Params Aux X : Type}.

(** How many times the rate equation was evaluated during the scheme calls
    of a driver. *)
Definition rate_evaluations (calls : list (@scheme_call Params Aux X)) : nat :=
  sum_list ((λ c, length (rate_calls (call_events c))) <$> calls).

(** The state in what a scheme hands back, be it a tuple or a bare array. *)
Definition new_state (m : M (@event Params Aux X) (@retval Aux X)) : option X :=
  match outcome m with
  | Ok (RetTuple _ x) => Some x
  | Ok (RetArray x) => Some x
  | Raise _ => None
  end.

End RunObservations.

(** ** The helpers of [odenet/refine_train.py] *)

Module refine_train.

(** A tensor of a model as [count_parameters] reads it: [p.numel()] and
    [p.requires_grad]. *)
Record param : Type := Param {
  numel : nat;
  requires_grad : bool;
}.

(** [sum(p.numel() for p in model.parameters() if p.requires_grad)], on
    the list that [model.parameters()] yields. *)
Definition count_parameters (params : list param) : nat :=
  sum_list (numel <$> filter (λ p, requires_grad p = true) params).

(** A param group of an optimizer: a dict from the names of its float
    options ([lr], [momentum], [weight_decay], ...) to their values.  An
    optimizer is read through [optimizer.param_groups] only. *)
Abbreviation param_group := (gmap string float) (only parsing).

(** A line written by [print(label, value)]. *)
Inductive printed : Type := Print (label : string) (value : float).

(** What a function that updates the optimizer in place leaves behind: how
    it ended, the param groups afterwards, and what it printed.  When it
    ends well, the optimizer it returns is the one it was given, with these
    param groups. *)
Definition updated : Type := result unit * list param_group * list printed.

(** [for param_group in groups:
         param_group['lr'] *= lr_decay_rate
         print('lr decay update', param_group['lr'])] *)
Fixpoint decay_groups (lr_decay_rate : float) (groups : list param_group)
    : updated :=
  match groups with
  | [] => (Ok tt, [], [])
  | param_group :: groups' =>
      match param_group !! "lr" with
      | None => (Raise (KeyError "lr"), param_group :: groups', [])
      | Some lr =>
          let param_group' := <["lr" := lr * lr_decay_rate]> param_group in
          let '(r, groups'', out) := decay_groups lr_decay_rate groups' in
          (r, param_group' :: groups'',
           Print "lr decay update" (lr * lr_decay_rate) :: out)
      end
  end.

(** Decay learning rate by a factor of [lr_decay_rate] at the epochs of
    [decayEpoch]. *)
Definition exp_lr_scheduler (optimizer : list param_group) (epoch : Z)
    (lr_decay_rate : float) (decayEpoch : list Z) : updated :=
  if bool_decide (epoch ∈ decayEpoch) then decay_groups lr_decay_rate optimizer
  else (Ok tt, optimizer, []).

(** [for param_group in optimizer.param_groups:
         param_group['lr'] = lr
         print('reset lr', param_group['lr'])] *)
Definition reset_lr (optimizer : list param_group) (lr : float) : updated :=
  (Ok tt,
   (λ param_group, <["lr" := lr]> param_group) <$> optimizer,
   (λ _, Print "reset lr" lr) <$> optimizer).

(** The param groups after the scheduler has been called for each epoch of
    [epochs] in turn, each call on the optimizer the call before returned:
    [optimizer = exp_lr_scheduler(optimizer, e, lr_decay_rate, decayEpoch)],
    the last statement of the epoch loop of [train_adapt], for a run in
    which no refinement makes a new optimizer.  A call that raises ends
    the loop. *)
Fixpoint schedule_epochs (epochs : list Z) (lr_decay_rate : float)
    (decayEpoch : list Z) (optimizer : list param_group)
    : result unit * list param_group :=
  match epochs with
  | [] => (Ok tt, optimizer)
  | e :: epochs' =>
      match exp_lr_scheduler optimizer e lr_decay_rate decayEpoch with
      | (Ok _, optimizer', _) =>
          schedule_epochs epochs' lr_decay_rate decayEpoch optimizer'
      | (Raise err, optimizer', _) => (Raise err, optimizer')
      end
  end.

End refine_train.

(** What the decay does to one param group, and the line it prints. *)
Definition decay_lr (lr_decay_rate : float) (g : gmap string float)
    : gmap string float :=
  alter (λ lr, lr * lr_decay_rate) "lr" g.

Definition decay_line (lr_decay_rate : float) (g : gmap string float)
    : refine_train.printed :=
  refine_train.Print "lr decay update"
    (default 0 (g !! "lr") * lr_decay_rate).

(** A param group as [torch.optim.SGD(..., lr=0.1, momentum=0.9)] makes
    it, as far as its float options go. *)
Definition sgd_group : gmap string float :=
  <["lr" := fl 1 / fl 10]> (<["momentum" := fl 9 / fl 10]> ∅).

(** ** The query times in binary64 *)

(** The arguments the four schemes hand to [params_of_t] are float
    expressions in [t0] and [Dt] alone.  Here they are computed as Python
    computes them, in IEEE 754 binary64 with rounding to nearest even (the
    operations of the Standard Library's [SpecFloat] at precision 53), so
    that the effect of rounding on these times can be observed. *)
Module b64.

Import SpecFloat.

Definition prec : Z := 53.
Definition emax : Z := 1024.

Abbreviation binary64 := spec_float (only parsing).

Definition add : binary64 → binary64 → binary64 := SFadd prec emax.
Definition sub : binary64 → binary64 → binary64 := SFsub prec emax.
Definition mul : binary64 → binary64 → binary64 := SFmul prec emax.
Definition div : binary64 → binary64 → binary64 := SFdiv prec emax.
Definition ltb : binary64 → binary64 → bool := SFltb.
Definition leb : binary64 → binary64 → bool := SFleb.

(** The float of an integer literal such as [1.0] or [3.0]. *)
Definition of_int (n : Z) : binary64 := binary_normalize prec emax n 0 false.

(** [0.5], which is a binary64 value. *)
Definition half : binary64 := div (of_int 1) (of_int 2).

(** [1.0e-5] is no binary64 value: the literal denotes the nearest one,
    [0x1.4f8b588e368f1p-17], which is also the rounded quotient of [1] by
    [100000]. *)
Definition DT_OPEN_SET_EPS : binary64 := div (of_int 1) (of_int 100000).


(** [Midpoint]: [params_of_t(t0)], [params_of_t(t0 + 0.5 * Dt)]. *)
Definition Midpoint_queries (t0 Dt : binary64) : list binary64 :=
  [t0; add t0 (mul half Dt)].

(** [RK4]: [t0], [t0 + 0.5 * Dt] twice, [t0 + Dt - DT_OPEN_SET_EPS]. *)
Definition RK4_queries (t0 Dt : binary64) : list binary64 :=
  [t0; add t0 (mul half Dt); add t0 (mul half Dt);
   sub (add t0 Dt) DT_OPEN_SET_EPS].

(** [RK4_38]: [t0], [t0 + 1.0/3.0 * Dt], [t0 + 2.0/3.0 * Dt],
    [t0 + Dt - DT_OPEN_SET_EPS]. *)
Definition RK4_38_queries (t0 Dt : binary64) : list binary64 :=
  [t0; add t0 (mul (div (of_int 1) (of_int 3)) Dt);
   add t0 (mul (div (of_int 2) (of_int 3)) Dt);
   sub (add t0 Dt) DT_OPEN_SET_EPS].

(** [t0 <= t < t0 + Dt], with the sum rounded as the code rounds it. *)
Definition in_step (t0 Dt t : binary64) : bool :=
  leb t0 t && ltb t (add t0 Dt).


End b64.

(** * Proofs *)

(** ** Rational arithmetic *)

Lemma fl_inj (n m : Z) : fl n = fl m → n = m.
Proof.
  unfold fl. intros Heq. apply (f_equal this) in Heq. simpl in Heq.
  rewrite !inject_Z_Qred in Heq. by injection Heq.
Qed.

Lemma fl_nonzero (n : Z) : n ≠ 0%Z → fl n ≠ 0.
Proof. intros Hn Heq. by apply Hn, fl_inj. Qed.

(** Equations between floats, by the field of rationals; the literals that
    divide must be nonzero. *)
Ltac fl_field :=
  change (fl 0) with 0; change (fl 1) with 1;
  field; repeat split; try (apply fl_nonzero; lia); try done.

Lemma half_step (Dt : float) : fl 1 / fl 2 * Dt = Dt / fl 2.
Proof. fl_field. Qed.

Lemma third_step (Dt : float) : fl 1 / fl 3 * Dt = Dt / fl 3.
Proof. fl_field. Qed.

Lemma two_thirds_step (Dt : float) : fl 2 / fl 3 * Dt = fl 2 * Dt / fl 3.
Proof. fl_field. Qed.







Lemma eps_pos : 0 < fl 1 / fl 100000.
Proof. done. Qed.


(** The scalars satisfy the module laws. *)
Global Instance float_array_laws : ArrayLaws float.
Proof.
  split; intros; unfold smul; simpl.
  - apply Qcmult_assoc.
  - apply Qcmult_1_l.
Qed.

(** ** The monad *)

Lemma bind_ok {E A B} (k : A → M E B) (a : A) (tr : list E) :
  mbind k (Ok a, tr) = (outcome (k a), tr ++ trace (k a)).
Proof. reflexivity. Qed.

Lemma bind_raise {E A B} (k : A → M E B) (e : exn) (tr : list E) :
  mbind k (Raise e, tr) = (Raise e, tr).
Proof. reflexivity. Qed.

(** ** One step of each scheme, run on arbitrary collaborators *)

Section SchemeRuns.

Context {Params Aux X : Type} `{ArrayOps X}.
Implicit Types (params_of_t : float → Params) (x : X).
Implicit Types (f : Params → X → Aux * X) (Dt : float).

Lemma call_rate_run f params_of_t (t : float) x :
  call_rate f params_of_t t x
  = (Ok (f (params_of_t t) x),
     [EvParams t; EvRate (params_of_t t) x (f (params_of_t t) x).1]).
Proof. reflexivity. Qed.

Lemma Euler_run params_of_t x (t0 : float) f Dt :
  let p1 := params_of_t t0 in
  Euler params_of_t x t0 f Dt
  = (Ok (RetTuple (f p1 x).1 (x ⊞ Dt ⊙ (f p1 x).2)),
     [EvParams t0; EvRate p1 x (f p1 x).1]).
Proof.
  intros p1. unfold Euler. rewrite call_rate_run, bind_ok.
  subst p1. by destruct (f _ x).
Qed.

Lemma Midpoint_run params_of_t x (t0 : float) f Dt :
  let p1 := params_of_t t0 in
  let k1 := (f p1 x).2 in
  let x1 := x ⊞ (fl 1 / fl 2 * Dt) ⊙ k1 in
  let p2 := params_of_t (t0 + fl 1 / fl 2 * Dt) in
  Midpoint params_of_t x t0 f Dt
  = (Ok (RetTuple (f p2 x1).1 (x ⊞ Dt ⊙ (f p2 x1).2)),
     [EvParams t0; EvRate p1 x (f p1 x).1;
      EvParams (t0 + fl 1 / fl 2 * Dt); EvRate p2 x1 (f p2 x1).1]).
Proof.
  intros p1 k1 x1 p2. unfold Midpoint. subst p1 k1 x1 p2.
  rewrite call_rate_run, bind_ok.
  destruct (f (params_of_t t0) x) as [s1 k1]; cbn [fst snd].
  rewrite call_rate_run, bind_ok.
  by destruct (f _ (x ⊞ _ ⊙ k1)) as [s2 k2].
Qed.

Lemma RK4_run params_of_t x (t0 : float) f Dt :
  let p1 := params_of_t t0 in
  let k1 := (f p1 x).2 in
  let x1 := x ⊞ (fl 1 / fl 2 * Dt) ⊙ k1 in
  let p2 := params_of_t (t0 + fl 1 / fl 2 * Dt) in
  let k2 := (f p2 x1).2 in
  let x2 := x ⊞ (fl 1 / fl 2 * Dt) ⊙ k2 in
  let k3 := (f p2 x2).2 in
  let x3 := x ⊞ Dt ⊙ k3 in
  let p4 := params_of_t (t0 + Dt - DT_OPEN_SET_EPS) in
  let k4 := (f p4 x3).2 in
  RK4 params_of_t x t0 f Dt
  = (Ok (RetArray
           (x ⊞ Dt ⊙ ((fl 1 / fl 6) ⊙ k1 ⊞ (fl 1 / fl 3) ⊙ k2
                       ⊞ (fl 1 / fl 3) ⊙ k3 ⊞ (fl 1 / fl 6) ⊙ k4))),
     [EvParams t0; EvRate p1 x (f p1 x).1;
      EvParams (t0 + fl 1 / fl 2 * Dt); EvRate p2 x1 (f p2 x1).1;
      EvParams (t0 + fl 1 / fl 2 * Dt); EvRate p2 x2 (f p2 x2).1;
      EvParams (t0 + Dt - DT_OPEN_SET_EPS); EvRate p4 x3 (f p4 x3).1]).
Proof.
  intros p1 k1 x1 p2 k2 x2 k3 x3 p4 k4. unfold RK4.
  subst p1 k1 x1 p2 k2 x2 k3 x3 p4 k4.
  rewrite call_rate_run, bind_ok.
  destruct (f (params_of_t t0) x) as [s1 k1]; cbn [fst snd].
  rewrite call_rate_run, bind_ok.
  destruct (f _ (x ⊞ _ ⊙ k1)) as [s2 k2]; cbn [fst snd].
  rewrite call_rate_run, bind_ok.
  destruct (f _ (x ⊞ _ ⊙ k2)) as [s3 k3]; cbn [fst snd].
  rewrite call_rate_run, bind_ok.
  by destruct (f _ (x ⊞ _ ⊙ k3)) as [s4 k4].
Qed.

Lemma RK4_38_run params_of_t x (t0 : float) f Dt :
  let p1 := params_of_t t0 in
  let k1 := (f p1 x).2 in
  let x1 := x ⊞ (fl 1 / fl 3 * Dt) ⊙ k1 in
  let p2 := params_of_t (t0 + fl 1 / fl 3 * Dt) in
  let k2 := (f p2 x1).2 in
  let x2 := x ⊞ Dt ⊙ ((- fl 1 / fl 3) ⊙ k1 ⊞ fl 1 ⊙ k2) in
  let p3 := params_of_t (t0 + fl 2 / fl 3 * Dt) in
  let k3 := (f p3 x2).2 in
  let x3 := x ⊞ Dt ⊙ (k1 ⊟ k2 ⊞ k3) in
  let p4 := params_of_t (t0 + Dt - DT_OPEN_SET_EPS) in
  let k4 := (f p4 x3).2 in
  RK4_38 params_of_t x t0 f Dt
  = (Ok (RetTuple (f p4 x3).1
           (x ⊞ Dt ⊙ ((fl 1 / fl 8) ⊙ k1 ⊞ (fl 3 / fl 8) ⊙ k2
                       ⊞ (fl 3 / fl 8) ⊙ k3 ⊞ (fl 1 / fl 8) ⊙ k4))),
     [EvParams t0; EvRate p1 x (f p1 x).1;
      EvParams (t0 + fl 1 / fl 3 * Dt); EvRate p2 x1 (f p2 x1).1;
      EvParams (t0 + fl 2 / fl 3 * Dt); EvRate p3 x2 (f p3 x2).1;
      EvParams (t0 + Dt - DT_OPEN_SET_EPS); EvRate p4 x3 (f p4 x3).1]).
Proof.
  intros p1 k1 x1 p2 k2 x2 p3 k3 x3 p4 k4. unfold RK4_38.
  subst p1 k1 x1 p2 k2 x2 p3 k3 x3 p4 k4.
  rewrite call_rate_run, bind_ok.
  destruct (f (params_of_t t0) x) as [s1 k1]; cbn [fst snd].
  rewrite call_rate_run, bind_ok.
  destruct (f _ (x ⊞ _ ⊙ k1)) as [s2 k2]; cbn [fst snd].
  rewrite call_rate_run, bind_ok.
  destruct (f _ (x ⊞ Dt ⊙ (_ ⊙ k1 ⊞ _ ⊙ k2))) as [s3 k3]; cbn [fst snd].
  rewrite call_rate_run, bind_ok.
  by destruct (f _ (x ⊞ Dt ⊙ (k1 ⊟ k2 ⊞ k3))) as [s4 k4].
Qed.

(** The three schemes that end in [return state, x] honour the Scheme
    contract; [RK4] ends in [return x + ...]. *)
Lemma Euler_returns_tuple : returns_tuple (Euler (Params:=Params) (Aux:=Aux)).
Proof. intros p x t f dt. rewrite Euler_run. by eexists _, _. Qed.

Lemma Midpoint_returns_tuple :
  returns_tuple (Midpoint (Params:=Params) (Aux:=Aux)).
Proof. intros p x t f dt. rewrite Midpoint_run. by eexists _, _. Qed.

Lemma RK4_38_returns_tuple :
  returns_tuple (RK4_38 (Params:=Params) (Aux:=Aux)).
Proof. intros p x t f dt. rewrite RK4_38_run. by eexists _, _. Qed.

End SchemeRuns.

(** ** Claims about a single step *)

Section SchemeClaims.

Context {Params Aux X : Type} `{ArrayOps X}.
Implicit Types (params_of_t : float → Params) (x : X).
Implicit Types (f : Params → X → Aux * X) (Dt : float).

(** C1.  [Euler], [Midpoint] and [RK4_38] hand back the tuple
    [(state, new_x)] whose [state] is the one emitted by their last call
    of the rate equation.  [RK4] does not: it computes [state4] and hands
    back the bare new state, so what it returns is no pair and carries no
    auxiliary state. *)
Theorem C1_RK4_returns_no_state params_of_t x (t0 : float) f Dt :
  returns_final_state (Euler params_of_t x t0 f Dt)
  ∧ returns_final_state (Midpoint params_of_t x t0 f Dt)
  ∧ returns_final_state (RK4_38 params_of_t x t0 f Dt)
  ∧ (∃ x', outcome (RK4 params_of_t x t0 f Dt) = Ok (RetArray x'))
  ∧ ¬ returns_final_state (RK4 params_of_t x t0 f Dt).
Proof.
  unfold returns_final_state.
  rewrite Euler_run, Midpoint_run, RK4_38_run, RK4_run.
  cbn [outcome trace fst snd].
  repeat split; try by eexists _, _.
  - by eexists.
  - by intros (state & x' & [=] & _).
Qed.


(** C5.  One [RK4] step evaluates the rate equation four times, at
    [(params_of_t(t0), x)], at [x1 = x + 0.5·Dt·k1], at
    [x2 = x + 0.5·Dt·k2] and at [x3 = x + Dt·k3], in this order, and
    returns the new state [x + Dt·(k1/6 + k2/3 + k3/3 + k4/6)]. *)
Theorem C5_RK4_tableau params_of_t x (t0 : float) f Dt :
  rate_calls (trace (RK4 params_of_t x t0 f Dt))
  = (RK4_spec params_of_t x t0 f Dt).1
  ∧ outcome (RK4 params_of_t x t0 f Dt)
    = Ok (RetArray (RK4_spec params_of_t x t0 f Dt).2).
Proof.
  rewrite RK4_run. unfold RK4_spec, adiv, DT_OPEN_SET_EPS.
  cbn [rate_calls omap list_omap outcome trace fst snd].
  by rewrite <-!(half_step Dt).
Qed.

(** C6.  One [RK4_38] step evaluates the rate equation four times, at
    [(params_of_t(t0), x)], at [x1 = x + Dt·k1/3] and time [t0 + Dt/3], at
    [x2 = x + Dt·(−k1/3 + k2)] and time [t0 + 2Dt/3], and at
    [x3 = x + Dt·(k1 − k2 + k3)], in this order, and returns the new state
    [x + Dt·(k1/8 + 3·k2/8 + 3·k3/8 + k4/8)] (beside the auxiliary state).
    The groupings of the code and of the tableau agree by the module laws
    of scaling. *)
Theorem C6_RK4_38_tableau `{!ArrayLaws X} params_of_t x (t0 : float) f Dt :
  rate_calls (trace (RK4_38 params_of_t x t0 f Dt))
  = (RK4_38_spec params_of_t x t0 f Dt).1
  ∧ ∃ state, outcome (RK4_38 params_of_t x t0 f Dt)
             = Ok (RetTuple state (RK4_38_spec params_of_t x t0 f Dt).2).
Proof.
  rewrite RK4_38_run. unfold RK4_38_spec, adiv, aopp, DT_OPEN_SET_EPS.
  cbn [rate_calls omap list_omap outcome trace fst snd].
  rewrite !smul_assoc, smul_1_l.
  rewrite <-!(third_step Dt), <-!(two_thirds_step Dt).
  replace (fl 1 / fl 3 * - fl 1) with (- fl 1 / fl 3) by fl_field.
  replace (fl 1 / fl 8 * fl 3) with (fl 3 / fl 8) by fl_field.
  split; [done | by eexists].
Qed.

End SchemeClaims.

(** ** The grid *)

Lemma linspace_length (start stop : float) (num : Z) :
  (0 ≤ num)%Z →
  ∃ ts, onp.linspace start stop num = Ok ts ∧ length ts = Z.to_nat num.
Proof.
  intros Hnum. unfold onp.linspace.
  destruct (decide (num < 0)%Z) as [|_]; [lia|].
  eexists; split; [done|].
  assert (Hlen : ∀ g h : float → float,
    length (h <$> (g <$> onp.arange (Z.to_nat num))) = Z.to_nat num).
  { intros g h. unfold onp.arange. rewrite !length_fmap. rewrite length_seq. done. }
  unfold onp.set_last.
  repeat case_decide; rewrite ?length_insert; apply Hlen.
Qed.

Lemma linspace_unit (num : Z) :
  (2 ≤ num)%Z →
  ∃ ts, onp.linspace (fl 0) (fl 1) num = Ok ts
        ∧ length ts = Z.to_nat num
        ∧ ∀ i t, ts !! i = Some t → t = fl (Z.of_nat i) / fl (num - 1).
Proof.
  intros Hnum.
  destruct (linspace_length (fl 0) (fl 1) num) as (ts & Hts & Hlen); [lia|].
  exists ts. split_and!; [done..|].
  revert Hts. unfold onp.linspace.
  destruct (decide (num < 0)%Z) as [|_]; [lia|].
  destruct (decide (0 < num - 1)%Z) as [_|]; [|lia].
  destruct (decide (1 < num)%Z) as [_|]; [|lia].
  assert (Hdiv : fl (num - 1) ≠ 0) by (apply fl_nonzero; lia).
  destruct (decide ((fl 1 - fl 0) / fl (num - 1) = 0)) as [Hz|_].
  { exfalso. revert Hz. change (fl 1 - fl 0) with 1.
    intros Hz. apply (f_equal (λ q, q * fl (num - 1))) in Hz.
    rewrite Qcmult_0_l in Hz. unfold Qcdiv in Hz.
    rewrite <-Qcmult_assoc, (Qcmult_comm (/ _)), Qcmult_inv_r in Hz by done.
    done. }
  intros [= <-] i t. unfold onp.set_last.
  unfold onp.arange.
  rewrite list_lookup_insert, !length_fmap, length_seq.
  case_decide as Hi.
  - intros [= <-]. destruct Hi as [<- _].
    replace (Z.of_nat (Nat.pred (Z.to_nat num))) with (num - 1)%Z by lia.
    fl_field.
  - rewrite !list_lookup_fmap. intros Hlook.
    destruct (seq 0 (Z.to_nat num) !! i) as [j|] eqn:Hj; [|done].
    apply lookup_seq in Hj as [-> _]. injection Hlook as <-.
    simpl. fl_field.
Qed.

(** ** The loops of the drivers *)

Section DriverRuns.

Context {Params Aux X : Type} `{ArrayOps X}.
Variables (scheme : @IntegrationScheme Params Aux X).
Variables (params_of_t : float → Params) (f : Params → X → Aux * X).
Variable dt : float.

Local Abbreviation next := (next_state scheme params_of_t f dt).
Local Abbreviation states := (orbit scheme params_of_t f dt).
Local Abbreviation calls := (orbit_calls scheme params_of_t f dt).

Lemma length_orbit ts x : length (states ts x) = S (length ts).
Proof. revert x. induction ts as [|t ts IH]; intros x; simpl; auto. Qed.

Lemma length_orbit_calls ts x : length (calls ts x) = length ts.
Proof. revert x. induction ts as [|t ts IH]; intros x; simpl; auto. Qed.

Lemma orbit_head ts x : states ts x !! 0%nat = Some x.
Proof. by destruct ts. Qed.

Lemma orbit_cons ts x : states ts x = x :: tail (states ts x).
Proof. by destruct ts. Qed.

Lemma orbit_last ts x :
  last (states ts x) = Some (foldl (λ x t, next t x) x ts).
Proof.
  revert x. induction ts as [|t ts IH]; intros x; [done|].
  simpl orbit. rewrite (orbit_cons ts), last_cons_cons, <-orbit_cons.
  apply IH.
Qed.

(** Each state of the orbit is the start state of the step with the same
    index, and the next state of the orbit is where that step ends. *)
Lemma orbit_lookup_step ts x i t :
  ts !! i = Some t →
  ∃ xi, states ts x !! i = Some xi
        ∧ states ts x !! S i = Some (next t xi)
        ∧ calls ts x !! i
          = Some (SchemeCall xi t dt (trace (scheme params_of_t xi t f dt))).
Proof.
  revert x i. induction ts as [|t' ts IH]; intros x [|i] Hi; try done.
  - injection Hi as ->. exists x. split_and!; try done.
    simpl. apply orbit_head.
  - apply (IH (next t' x)) in Hi as (xi & ? & ? & ?). by exists xi.
Qed.

Hypothesis scheme_tuple : returns_tuple scheme.

Lemma next_state_run t x :
  ∃ state, outcome (scheme params_of_t x t f dt)
           = Ok (RetTuple state (next t x)).
Proof.
  unfold next_state.
  destruct (scheme_tuple params_of_t x t f dt) as (state & x' & ->).
  by exists state.
Qed.

Lemma scheme_step_run t x :
  scheme_step scheme params_of_t f dt t x
  = (Ok (next t x),
     [SchemeCall x t dt (trace (scheme params_of_t x t f dt))]).
Proof.
  unfold scheme_step, tell, lift.
  destruct (next_state_run t x) as (state & Hrun).
  rewrite bind_ok, Hrun. reflexivity.
Qed.

Lemma fast_loop_run ts x :
  for_each ts (scheme_step scheme params_of_t f dt) x
  = (Ok (foldl (λ x t, next t x) x ts), calls ts x).
Proof.
  revert x. induction ts as [|t ts IH]; intros x; [done|].
  cbn [for_each foldl orbit_calls].
  by rewrite scheme_step_run, bind_ok, IH.
Qed.

Lemma points_loop_run ts x xs :
  for_each ts (record_step scheme params_of_t f dt) (x, xs)
  = (Ok (foldl (λ x t, next t x) x ts, xs ++ tail (states ts x)),
     calls ts x).
Proof.
  revert x xs. induction ts as [|t ts IH]; intros x xs.
  - simpl. by rewrite app_nil_r.
  - cbn [for_each foldl orbit_calls orbit tail record_step].
    rewrite scheme_step_run, !bind_ok. cbn [mret M_ret outcome trace fst snd].
    rewrite bind_ok, IH. cbn [outcome trace fst snd].
    rewrite app_nil_r, <-app_assoc. cbn [app]. by rewrite <-orbit_cons.
Qed.

(** Both drivers, for a nonzero [n_step] whose grid is [ts]. *)
Lemma StateOdeIntegrateFast_run (n_step : Z) ts x :
  n_step ≠ 0%Z →
  onp.linspace (fl 0) (fl 1) n_step = Ok ts →
  dt = fl 1 / fl n_step →
  StateOdeIntegrateFast params_of_t x f scheme n_step
  = (Ok (foldl (λ x t, next t x) x ts), calls ts x).
Proof.
  intros Hn Hts Hdt. unfold StateOdeIntegrateFast, float_div_int, lift.
  destruct (decide (n_step = 0%Z)) as [|_]; [done|].
  rewrite Hts, <-Hdt, !bind_ok, fast_loop_run. reflexivity.
Qed.

Lemma StateOdeIntegrateWithPoints_run (n_step : Z) ts x :
  n_step ≠ 0%Z →
  onp.linspace (fl 0) (fl 1) n_step = Ok ts →
  dt = fl 1 / fl n_step →
  StateOdeIntegrateWithPoints params_of_t x f scheme n_step
  = (Ok (states ts x), calls ts x).
Proof.
  intros Hn Hts Hdt. unfold StateOdeIntegrateWithPoints, float_div_int, lift.
  destruct (decide (n_step = 0%Z)) as [|_]; [done|].
  rewrite Hts, <-Hdt, !bind_ok, points_loop_run.
  cbn [app]. rewrite <-orbit_cons, bind_ok.
  cbn [outcome trace fst snd mret M_ret].
  by rewrite !app_nil_r.
Qed.

End DriverRuns.

(** The two loops agree on every scheme, also on one that breaks the
    Scheme contract: same calls, same exception, and the state of the fast
    loop is the last snapshot of the recording loop. *)
Section DriversAgree.

Context {Params Aux X : Type} `{ArrayOps X}.
Variables (scheme : @IntegrationScheme Params Aux X).
Variables (params_of_t : float → Params) (f : Params → X → Aux * X).

Lemma loops_agree (dt : float) ts x xs :
  trace (for_each ts (record_step scheme params_of_t f dt) (x, xs))
  = trace (for_each ts (scheme_step scheme params_of_t f dt) x)
  ∧ match outcome (for_each ts (scheme_step scheme params_of_t f dt) x) with
    | Ok xf =>
        ∃ l, outcome (for_each ts (record_step scheme params_of_t f dt)
                        (x, xs)) = Ok (xf, xs ++ l)
             ∧ last (x :: l) = Some xf
    | Raise e =>
        outcome (for_each ts (record_step scheme params_of_t f dt) (x, xs))
        = Raise e
    end.
Proof.
  revert x xs. induction ts as [|t ts IH]; intros x xs.
  - split; [done|]. exists []. by rewrite app_nil_r.
  - cbn [for_each record_step].
    destruct (scheme_step scheme params_of_t f dt t x) as [[x'|e] tr].
    + rewrite !bind_ok. cbn [mret M_ret outcome trace fst snd].
      rewrite bind_ok, app_nil_r. cbn [outcome trace fst snd].
      destruct (IH x' (xs ++ [x'])) as [-> Hout]. split; [done|].
      destruct (outcome (for_each ts _ x')) as [xf|e]; [|done].
      destruct Hout as (l & -> & Hlast). exists (x' :: l).
      by rewrite <-app_assoc.
    + by rewrite !bind_raise.
Qed.

(** X1.  Whatever the scheme and [n_step] are, the two drivers make the
    same scheme calls and end the same way: where
    [StateOdeIntegrateFast] raises, [StateOdeIntegrateWithPoints] raises
    the same exception, and where it returns a state,
    [StateOdeIntegrateWithPoints] returns snapshots whose last one is that
    state. *)
Lemma drivers_agree x (n_step : Z) :
  trace (StateOdeIntegrateWithPoints params_of_t x f scheme n_step)
  = trace (StateOdeIntegrateFast params_of_t x f scheme n_step)
  ∧ match outcome (StateOdeIntegrateFast params_of_t x f scheme n_step) with
    | Ok xf =>
        ∃ xs, outcome (StateOdeIntegrateWithPoints params_of_t x f scheme
                         n_step) = Ok xs
              ∧ last xs = Some xf
    | Raise e =>
        outcome (StateOdeIntegrateWithPoints params_of_t x f scheme n_step)
        = Raise e
    end.
Proof.
  unfold StateOdeIntegrateWithPoints, StateOdeIntegrateFast, lift.
  destruct (float_div_int (fl 1) n_step) as [dt|e]; [|done].
  rewrite !bind_ok.
  destruct (onp.linspace (fl 0) (fl 1) n_step) as [ts|e]; [|done].
  rewrite !bind_ok. cbn [outcome trace fst snd app].
  destruct (loops_agree dt ts x [x]) as [Htr Hout].
  destruct (for_each ts (scheme_step _ _ _ _) x) as [[xf|e] tr];
    cbn [outcome trace fst snd] in *.
  - destruct Hout as (l & Hout & Hlast).
    destruct (for_each ts (record_step _ _ _ _) _) as [r tr'].
    cbn [outcome trace fst snd] in *. subst r tr'.
    rewrite bind_ok. cbn [outcome trace fst snd mret M_ret].
    rewrite app_nil_r. split; [done|]. by exists (x :: l).
  - destruct (for_each ts (record_step _ _ _ _) _) as [r tr'].
    cbn [outcome trace fst snd] in *. subst r tr'.
    by rewrite bind_raise.
Qed.

End DriversAgree.

(** ** Claims about the drivers *)

Section DriverClaims.

Context {Params Aux X : Type} `{ArrayOps X}.
Implicit Types (scheme : @IntegrationScheme Params Aux X).
Implicit Types (params_of_t : float → Params) (x : X).
Implicit Types (f : Params → X → Aux * X).

(** C2.  For [n_step >= 2] and a scheme that hands back tuples, both
    drivers call the scheme [n_step] times with [Dt = 1/n_step] and feed
    each step's state into the next one, but the start times are those of
    [linspace(0, 1, n_step)], that is [i/(n_step - 1)] and not [i/n_step]:
    the last step starts at [1.0] exactly, outside [[0, 1)]. *)
Theorem C2_last_step_starts_at_one scheme params_of_t x f (n_step : Z) :
  returns_tuple scheme →
  (2 ≤ n_step)%Z →
  let calls := trace (StateOdeIntegrateFast params_of_t x f scheme n_step) in
  trace (StateOdeIntegrateWithPoints params_of_t x f scheme n_step) = calls
  ∧ length calls = Z.to_nat n_step
  ∧ (∀ i c, calls !! i = Some c →
       call_t c = fl (Z.of_nat i) / fl (n_step - 1)
       ∧ call_dt c = fl 1 / fl n_step)
  ∧ (∃ c, last calls = Some c ∧ call_t c = fl 1)
  ∧ (∀ i c c', calls !! i = Some c → calls !! S i = Some c' →
       ∃ state, outcome (scheme params_of_t (call_x c) (call_t c) f
                           (call_dt c))
                = Ok (RetTuple state (call_x c'))).
Proof.
  intros Htuple Hn calls.
  destruct (linspace_unit n_step Hn) as (ts & Hts & Hlen & Hgrid).
  subst calls.
  rewrite (StateOdeIntegrateFast_run scheme params_of_t f _ Htuple
             n_step ts) by (done || lia).
  rewrite (StateOdeIntegrateWithPoints_run scheme params_of_t f _ Htuple
             n_step ts) by (done || lia).
  cbn [trace snd]. set (dt := fl 1 / fl n_step).
  assert (Hcall : ∀ i c,
    orbit_calls scheme params_of_t f dt ts x !! i = Some c →
    ∃ t xi, ts !! i = Some t
            ∧ orbit scheme params_of_t f dt ts x !! i = Some xi
            ∧ orbit scheme params_of_t f dt ts x !! S i
              = Some (next_state scheme params_of_t f dt t xi)
            ∧ c = SchemeCall xi t dt
                    (trace (scheme params_of_t xi t f dt))).
  { intros i c Hc.
    assert (is_Some (ts !! i)) as [t Ht].
    { apply lookup_lt_is_Some. rewrite <-(length_orbit_calls scheme
        params_of_t f dt ts x). by eapply lookup_lt_Some. }
    destruct (orbit_lookup_step scheme params_of_t f dt ts x i t Ht)
      as (xi & ? & ? & Hc').
    exists t, xi. split_and!; try done. congruence. }
  split_and!.
  - done.
  - by rewrite length_orbit_calls.
  - intros i c (t & xi & Ht & _ & _ & ->)%Hcall. simpl.
    split; [by apply Hgrid | done].
  - rewrite last_lookup, length_orbit_calls, Hlen.
    assert (is_Some (orbit_calls scheme params_of_t f dt ts x
                       !! Nat.pred (Z.to_nat n_step))) as [c Hc].
    { apply lookup_lt_is_Some. rewrite length_orbit_calls. lia. }
    exists c. split; [done|].
    apply Hcall in Hc as (t & xi & Ht & _ & _ & ->). simpl.
    rewrite (Hgrid _ _ Ht).
    replace (Z.of_nat (Nat.pred (Z.to_nat n_step))) with (n_step - 1)%Z
      by lia.
    assert (fl (n_step - 1) ≠ 0) by (apply fl_nonzero; lia).
    fl_field.
  - intros i c c' (t & xi & Ht & Hxi & Hxi' & ->)%Hcall
      (t' & xi' & Ht' & Hxj & _ & ->)%Hcall. simpl.
    rewrite Hxi' in Hxj. injection Hxj as <-.
    by apply next_state_run.
Qed.

(** The snapshots of a scheme that honours the Scheme contract.  For
    [N >= 1] and a scheme that hands back tuples,
    [StateOdeIntegrateWithPoints] returns [N + 1] snapshots: the first is
    the input state, and snapshot [i + 1] is the state handed back by
    step [i], which starts from snapshot [i]. *)
Theorem points_snapshots_of_tuples scheme params_of_t x f (N : Z) :
  returns_tuple scheme →
  (1 ≤ N)%Z →
  ∃ xs ts,
    outcome (StateOdeIntegrateWithPoints params_of_t x f scheme N) = Ok xs
    ∧ onp.linspace (fl 0) (fl 1) N = Ok ts
    ∧ length ts = Z.to_nat N
    ∧ length xs = (Z.to_nat N + 1)%nat
    ∧ xs !! 0%nat = Some x
    ∧ ∀ i t, ts !! i = Some t →
        ∃ xi state xi',
          xs !! i = Some xi
          ∧ trace (StateOdeIntegrateWithPoints params_of_t x f scheme N)
              !! i
            = Some (SchemeCall xi t (fl 1 / fl N)
                      (trace (scheme params_of_t xi t f (fl 1 / fl N))))
          ∧ outcome (scheme params_of_t xi t f (fl 1 / fl N))
            = Ok (RetTuple state xi')
          ∧ xs !! S i = Some xi'.
Proof.
  intros Htuple HN.
  destruct (linspace_length (fl 0) (fl 1) N) as (ts & Hts & Hlen); [lia|].
  rewrite (StateOdeIntegrateWithPoints_run scheme params_of_t f _ Htuple
             N ts) by (done || lia).
  cbn [outcome trace fst snd]. eexists _, ts. split_and!; try done.
  - rewrite length_orbit. lia.
  - apply orbit_head.
  - intros i t Ht.
    destruct (orbit_lookup_step scheme params_of_t f (fl 1 / fl N) ts x i t
                Ht) as (xi & Hxi & Hxi' & Hc).
    destruct (next_state_run scheme params_of_t f (fl 1 / fl N) Htuple t xi)
      as [state Hrun].
    by exists xi, state, (next_state scheme params_of_t f (fl 1 / fl N) t xi).
Qed.

(** C8.  For [n_step >= 1] and a scheme that hands back tuples, both
    drivers return, after the same scheme calls, and the last snapshot of
    [StateOdeIntegrateWithPoints] is the value of [StateOdeIntegrateFast],
    which is a state alone: no auxiliary state comes with it. *)
Theorem C8_fast_is_last_point scheme params_of_t x f (n_step : Z) :
  returns_tuple scheme →
  (1 ≤ n_step)%Z →
  ∃ (xs : list X) (xf : X),
    outcome (StateOdeIntegrateWithPoints params_of_t x f scheme n_step)
    = Ok xs
    ∧ outcome (StateOdeIntegrateFast params_of_t x f scheme n_step) = Ok xf
    ∧ last xs = Some xf
    ∧ trace (StateOdeIntegrateWithPoints params_of_t x f scheme n_step)
      = trace (StateOdeIntegrateFast params_of_t x f scheme n_step).
Proof.
  intros Htuple Hn.
  destruct (linspace_length (fl 0) (fl 1) n_step) as (ts & Hts & Hlen);
    [lia|].
  rewrite (StateOdeIntegrateWithPoints_run scheme params_of_t f _ Htuple
             n_step ts) by (done || lia).
  rewrite (StateOdeIntegrateFast_run scheme params_of_t f _ Htuple
             n_step ts) by (done || lia).
  cbn [outcome trace fst snd]. eexists _, _. split_and!; try done.
  apply orbit_last.
Qed.

(** C9.  [SCHEME_TABLE] maps each of the four names to the scheme of that
    name, so a step of the scheme looked up is a step of that scheme;
    any other name raises [KeyError], Python's key-not-found error. *)
Theorem C9_scheme_table (name : string) :
  (SCHEME_TABLE_getitem "Euler" = Ok (Euler (Params:=Params) (Aux:=Aux))
   ∧ SCHEME_TABLE_getitem "Midpoint" = Ok (Midpoint (Params:=Params) (Aux:=Aux))
   ∧ SCHEME_TABLE_getitem "RK4" = Ok (RK4 (Params:=Params) (Aux:=Aux))
   ∧ SCHEME_TABLE_getitem "RK4_38" = Ok (RK4_38 (Params:=Params) (Aux:=Aux)))
  ∧ (name ∉ ["Euler"; "Midpoint"; "RK4"; "RK4_38"] →
     SCHEME_TABLE_getitem (Params:=Params) (Aux:=Aux) (X:=X) name
     = Raise (KeyError name)).
Proof.
  split; [by split_and!|].
  rewrite !not_elem_of_cons. intros (? & ? & ? & ? & _).
  unfold SCHEME_TABLE_getitem, SCHEME_TABLE.
  by rewrite !lookup_insert_ne, lookup_empty.
Qed.

(** C10.  With [n_step = 0] both drivers raise [ZeroDivisionError] at
    [dt = 1.0 / n_step]: no scheme call is made, whatever the scheme and
    the rate equation are, and the input state is not returned. *)
Theorem C10_zero_steps scheme params_of_t x f :
  StateOdeIntegrateFast params_of_t x f scheme 0
  = (Raise ZeroDivisionError, [])
  ∧ StateOdeIntegrateWithPoints params_of_t x f scheme 0
    = (Raise ZeroDivisionError, [])
  ∧ outcome (StateOdeIntegrateFast params_of_t x f scheme 0) ≠ Ok x
  ∧ outcome (StateOdeIntegrateWithPoints params_of_t x f scheme 0) ≠ Ok [x].
Proof. by split_and!. Qed.

End DriverClaims.

(** ** The claims on concrete runs *)

(** The scenario of the specification: [x = 1.0], [f(p, x) = (None, -x)],
    constant parameters, [n_step = 100]. *)

(** C3.  With [RK4] the scenario does not return a value near [e^-1]: the
    first [state, x = scheme(...)] receives the bare float that [RK4]
    hands back and raises [TypeError], after one scheme call. *)
Theorem C3_decay_RK4_raises :
  outcome (StateOdeIntegrateFast unit_params (fl 1) decay RK4 100)
  = Raise TypeError
  ∧ (λ c, (this (call_x c), this (call_t c), this (call_dt c)))
      <$> trace (StateOdeIntegrateFast unit_params (fl 1) decay RK4 100)
    = [(1, 0, 1 # 100)%Q].
Proof. split; vm_compute; reflexivity. Qed.

(** One [RK4] step and one [RK4_38] step from the same input, with a rate
    equation that emits the state it is evaluated at: both reach [3/8];
    [RK4_38] hands back the state of its fourth call (emitted at [x3 = 0]), [RK4]
    none. *)
Example RK4_step_echo :
  ∃ x', outcome (RK4 unit_params (fl 1) (fl 0) echo (fl 1)) = Ok (RetArray x')
        ∧ this x' = (3 # 8)%Q
        ∧ this <$> emitted_states
                    (trace (RK4 unit_params (fl 1) (fl 0) echo (fl 1)))
          = [1; 1 # 2; 3 # 4; 1 # 4]%Q.
Proof. eexists. split; [reflexivity|]. split; vm_compute; reflexivity. Qed.

Example RK4_38_step_echo :
  ∃ state x',
    outcome (RK4_38 unit_params (fl 1) (fl 0) echo (fl 1))
    = Ok (RetTuple state x')
    ∧ this state = 0%Q ∧ this x' = (3 # 8)%Q.
Proof. eexists _, _. split; [reflexivity|]. split; vm_compute; reflexivity. Qed.

(** The grid of two steps is [[0.0, 1.0]], each step of size [0.5]. *)
Example two_steps_grid :
  (λ c, (this (call_t c), this (call_dt c)))
    <$> trace (StateOdeIntegrateFast unit_params (fl 1) decay Euler 2)
  = [(0, 1 # 2); (1, 1 # 2)]%Q.
Proof. vm_compute. reflexivity. Qed.

Lemma C2_witness :
  returns_tuple (Euler (Params:=unit) (Aux:=unit) (X:=float))
  ∧ (2 ≤ 2)%Z
  ∧ ∃ c, last (trace (StateOdeIntegrateFast unit_params (fl 1) decay Euler 2))
         = Some c
         ∧ call_t c = fl 1.
Proof.
  split; [apply Euler_returns_tuple|]. split; [lia|].
  apply (C2_last_step_starts_at_one Euler unit_params (fl 1) decay 2
           Euler_returns_tuple).
  lia.
Defined.


Lemma C6_witness :
  ArrayLaws float
  ∧ rate_calls (trace (RK4_38 unit_params (fl 1) (fl 0) decay (fl 1 / fl 10)))
    = (RK4_38_spec unit_params (fl 1) (fl 0) decay (fl 1 / fl 10)).1.
Proof.
  split; [exact float_array_laws|].
  apply (C6_RK4_38_tableau (ArrayLaws0:=float_array_laws)
           unit_params (fl 1) (fl 0) decay (fl 1 / fl 10)).
Defined.

Lemma points_snapshots_example :
  returns_tuple (Euler (Params:=unit) (Aux:=unit) (X:=float))
  ∧ (1 ≤ 3)%Z
  ∧ ∃ xs ts,
      outcome (StateOdeIntegrateWithPoints unit_params (fl 1) decay Euler 3)
      = Ok xs
      ∧ onp.linspace (fl 0) (fl 1) 3 = Ok ts
      ∧ length ts = Z.to_nat 3
      ∧ length xs = (Z.to_nat 3 + 1)%nat.
Proof.
  split; [apply Euler_returns_tuple|]. split; [lia|].
  destruct (points_snapshots_of_tuples Euler unit_params (fl 1) decay 3
              Euler_returns_tuple ltac:(lia))
    as (xs & ts & Hxs & Hts & Hlen & Hlen' & _).
  by exists xs, ts.
Defined.

Lemma C8_witness :
  returns_tuple (Midpoint (Params:=unit) (Aux:=unit) (X:=float))
  ∧ (1 ≤ 3)%Z
  ∧ ∃ xs xf,
      outcome (StateOdeIntegrateWithPoints unit_params (fl 1) decay Midpoint 3)
      = Ok xs
      ∧ outcome (StateOdeIntegrateFast unit_params (fl 1) decay Midpoint 3)
        = Ok xf
      ∧ last xs = Some xf.
Proof.
  split; [apply Midpoint_returns_tuple|]. split; [lia|].
  destruct (C8_fast_is_last_point Midpoint unit_params (fl 1) decay 3
              Midpoint_returns_tuple ltac:(lia))
    as (xs & xf & Hxs & Hxf & Hlast & _).
  by exists xs, xf.
Defined.

Lemma C9_witness :
  ("Heun" ∉ ["Euler"; "Midpoint"; "RK4"; "RK4_38"])
  ∧ SCHEME_TABLE_getitem (Params:=unit) (Aux:=unit) (X:=float) "Heun"
    = Raise (KeyError "Heun").
Proof.
  assert (Hname : "Heun" ∉ ["Euler"; "Midpoint"; "RK4"; "RK4_38"]).
  { rewrite !not_elem_of_cons. split_and!; try done. apply not_elem_of_nil. }
  split; [exact Hname|].
  apply (C9_scheme_table (Params:=unit) (Aux:=unit) (X:=float) "Heun").
  exact Hname.
Defined.

(** * Further properties *)

(** ** Further properties of the drivers *)

Lemma linspace_negative (start stop : float) (num : Z) :
  (num < 0)%Z → onp.linspace start stop num = Raise ValueError.
Proof. intros Hnum. unfold onp.linspace. by destruct (decide (num < 0)%Z). Qed.

Lemma linspace_one : onp.linspace (fl 0) (fl 1) 1 = Ok [fl 0].
Proof.
  unfold onp.linspace. simpl.
  replace (fl (Z.of_nat 0) * (fl 1 - fl 0) + fl 0) with (fl 0); [done|].
  by apply Qc_is_canon.
Qed.

(** For a positive count the grid starts at [0.0]. *)
Lemma linspace_head (num : Z) :
  (1 ≤ num)%Z →
  ∃ ts, onp.linspace (fl 0) (fl 1) num = Ok (fl 0 :: ts)
        ∧ length ts = Z.to_nat (num - 1).
Proof.
  intros Hnum. destruct (decide (num = 1%Z)) as [->|].
  { exists []. by rewrite linspace_one. }
  destruct (linspace_unit num) as (ts & Hts & Hlen & Hgrid); [lia|].
  destruct ts as [|t ts]; simpl in Hlen; [lia|].
  exists ts. split; [|lia].
  rewrite Hts. do 2 f_equal. rewrite (Hgrid 0%nat t) by done.
  assert (fl (num - 1) ≠ 0) by (apply fl_nonzero; lia).
  change (Z.of_nat 0) with 0%Z. fl_field.
Qed.

Section DriverEdges.

Context {Params Aux X : Type} `{ArrayOps X}.
Implicit Types (scheme : @IntegrationScheme Params Aux X).
Implicit Types (params_of_t : float → Params) (x : X).
Implicit Types (f : Params → X → Aux * X).


(** X3.  With [n_step = 1] the grid is [[0.0]] and [dt = 1.0]: for a scheme
    that hands back tuples, a driver makes one scheme call, from the input
    state at [t = 0.0] over the whole unit interval;
    [StateOdeIntegrateFast] returns its state and
    [StateOdeIntegrateWithPoints] the input state followed by it. *)
Theorem X3_single_step scheme params_of_t x f :
  returns_tuple scheme →
  ∃ state x',
    outcome (scheme params_of_t x (fl 0) f (fl 1)) = Ok (RetTuple state x')
    ∧ StateOdeIntegrateFast params_of_t x f scheme 1
      = (Ok x',
         [SchemeCall x (fl 0) (fl 1)
            (trace (scheme params_of_t x (fl 0) f (fl 1)))])
    ∧ StateOdeIntegrateWithPoints params_of_t x f scheme 1
      = (Ok [x; x'],
         [SchemeCall x (fl 0) (fl 1)
            (trace (scheme params_of_t x (fl 0) f (fl 1)))]).
Proof.
  intros Htuple.
  assert (Hdt : fl 1 = fl 1 / fl 1) by (by apply Qc_is_canon).
  rewrite (StateOdeIntegrateFast_run scheme params_of_t f (fl 1) Htuple 1
             [fl 0]) by (done || apply linspace_one).
  rewrite (StateOdeIntegrateWithPoints_run scheme params_of_t f (fl 1) Htuple
             1 [fl 0]) by (done || apply linspace_one).
  destruct (next_state_run scheme params_of_t f (fl 1) Htuple (fl 0) x)
    as [state Hrun].
  by exists state, (next_state scheme params_of_t f (fl 1) (fl 0) x).
Qed.

(** X4.  When the state cannot be iterated (a Python float, a 0-d array),
    [RK4] cannot be driven: for every [n_step >= 1] both drivers raise
    [TypeError] at the first [state, x = scheme(...)], after a single scheme
    call from the input state at [t = 0.0]. *)
Theorem X4_RK4_cannot_be_driven params_of_t x f (n_step : Z) :
  (∀ a : X, arows a = None) →
  (1 ≤ n_step)%Z →
  let call := SchemeCall x (fl 0) (fl 1 / fl n_step)
                (trace (RK4 params_of_t x (fl 0) f (fl 1 / fl n_step))) in
  StateOdeIntegrateFast params_of_t x f RK4 n_step = (Raise TypeError, [call])
  ∧ StateOdeIntegrateWithPoints params_of_t x f RK4 n_step
    = (Raise TypeError, [call]).
Proof.
  intros Hrows Hn call. subst call.
  destruct (linspace_head n_step Hn) as (ts & Hts & _).
  unfold StateOdeIntegrateFast, StateOdeIntegrateWithPoints.
  unfold float_div_int, lift.
  destruct (decide (n_step = 0%Z)) as [|_]; [lia|].
  rewrite !bind_ok, Hts, !bind_ok. cbn [for_each record_step].
  assert (Hstep : scheme_step RK4 params_of_t f (fl 1 / fl n_step) (fl 0) x
    = (Raise TypeError,
       [SchemeCall x (fl 0) (fl 1 / fl n_step)
          (trace (RK4 params_of_t x (fl 0) f (fl 1 / fl n_step)))])).
  { unfold scheme_step, tell, lift. rewrite bind_ok, RK4_run.
    cbn [outcome trace fst snd]. rewrite bind_ok.
    cbn [unpack_pair]. by rewrite Hrows. }
  rewrite Hstep, !bind_raise. cbn [outcome trace fst snd app].
  by rewrite ?bind_raise.
Qed.

End DriverEdges.

(** ** Counting calls *)

Section CallCounts.

Context {Params Aux X : Type} `{ArrayOps X}.
Implicit Types (scheme : @IntegrationScheme Params Aux X).
Implicit Types (params_of_t : float → Params) (x : X).
Implicit Types (f : Params → X → Aux * X).

(** A loop never makes more scheme calls than the grid has points, and makes
    exactly that many when it does not raise. *)
Lemma for_each_calls scheme params_of_t f (dt : float) ts x :
  (length (trace (for_each ts (scheme_step scheme params_of_t f dt) x))
   ≤ length ts)%nat
  ∧ (∀ xf, outcome (for_each ts (scheme_step scheme params_of_t f dt) x)
           = Ok xf →
     length (trace (for_each ts (scheme_step scheme params_of_t f dt) x))
     = length ts).
Proof.
  revert x. induction ts as [|t ts IH]; intros x; [by split|].
  cbn [for_each].
  assert (Hone : ∃ r, scheme_step scheme params_of_t f dt t x
                      = (r, [SchemeCall x t dt
                               (trace (scheme params_of_t x t f dt))])).
  { unfold scheme_step, tell, lift. rewrite bind_ok.
    destruct (outcome (scheme params_of_t x t f dt)) as [v|e].
    - rewrite bind_ok. destruct (unpack_pair v) as [r tr] eqn:Hv.
      assert (tr = []) as ->.
      { unfold unpack_pair in Hv. destruct v as [?|a]; [by injection Hv|].
        destruct (arows a) as [[|? [|? [|]]]|]; by injection Hv. }
      by exists r.
    - rewrite bind_raise. by exists (Raise e). }
  destruct Hone as [[x'|e] ->].
  - rewrite bind_ok. cbn [outcome trace fst snd length app].
    destruct (IH x') as [Hle Heq]. split; [lia|].
    intros xf Hxf. by rewrite (Heq xf).
  - rewrite bind_raise. cbn [outcome trace fst snd length]. split; [lia|done].
Qed.

(** A driver returns when the scheme honours its contract. *)
Lemma StateOdeIntegrateFast_returns scheme params_of_t x f (n_step : Z) :
  returns_tuple scheme →
  (1 ≤ n_step)%Z →
  ∃ xf, outcome (StateOdeIntegrateFast params_of_t x f scheme n_step) = Ok xf.
Proof.
  intros Htuple Hn.
  destruct (linspace_length (fl 0) (fl 1) n_step) as (ts & Hts & _); [lia|].
  rewrite (StateOdeIntegrateFast_run scheme params_of_t f _ Htuple
             n_step ts) by (done || lia).
  by eexists.
Qed.

(** X5.  Whatever the scheme does, [StateOdeIntegrateFast] makes at most
    [n_step] scheme calls; it returns a state only for [n_step >= 1], and
    then after exactly [n_step] scheme calls. *)
Theorem X5_fast_call_count scheme params_of_t x f (n_step : Z) :
  (length (trace (StateOdeIntegrateFast params_of_t x f scheme n_step))
   ≤ Z.to_nat n_step)%nat
  ∧ (∀ xf, outcome (StateOdeIntegrateFast params_of_t x f scheme n_step)
           = Ok xf →
     (1 ≤ n_step)%Z
     ∧ length (trace (StateOdeIntegrateFast params_of_t x f scheme n_step))
       = Z.to_nat n_step).
Proof.
  unfold StateOdeIntegrateFast, float_div_int, lift.
  destruct (decide (n_step = 0%Z)) as [->|Hn0].
  { rewrite bind_raise. by split. }
  rewrite bind_ok. cbn [outcome trace fst snd app].
  destruct (decide (n_step < 0)%Z) as [Hneg|Hpos].
  { rewrite linspace_negative by done. rewrite bind_raise.
    cbn [outcome trace fst snd length]. split; [lia|done]. }
  destruct (linspace_length (fl 0) (fl 1) n_step) as (ts & -> & Hlen); [lia|].
  rewrite bind_ok. cbn [outcome trace fst snd app]. rewrite <-Hlen.
  destruct (for_each_calls scheme params_of_t f (fl 1 / fl n_step) ts x)
    as [Hle Heq].
  split; [done|]. intros xf Hxf. split; [lia|by apply (Heq xf)].
Qed.

(** The rate evaluations of a run add up over its scheme calls. *)
Lemma rate_evaluations_orbit scheme params_of_t f (dt : float) (k : nat) ts x :
  (∀ x t, length (rate_calls (trace (scheme params_of_t x t f dt))) = k) →
  rate_evaluations (orbit_calls scheme params_of_t f dt ts x)
  = (k * length ts)%nat.
Proof.
  intros Hk. revert x. induction ts as [|t ts IH]; intros x.
  - simpl. unfold rate_evaluations. simpl. lia.
  - unfold rate_evaluations in *. cbn [orbit_calls fmap list_fmap sum_list].
    cbn [call_events]. rewrite Hk. simpl in IH. rewrite IH. simpl. lia.
Qed.

(** X6.  For [n_step >= 1] a run of [StateOdeIntegrateFast] evaluates the
    rate equation [n_step] times with [Euler], [2·n_step] times with
    [Midpoint] and [4·n_step] times with [RK4_38]. *)
Theorem X6_rate_evaluations params_of_t x f (n_step : Z) :
  (1 ≤ n_step)%Z →
  rate_evaluations (trace (StateOdeIntegrateFast params_of_t x f Euler n_step))
  = Z.to_nat n_step
  ∧ rate_evaluations
      (trace (StateOdeIntegrateFast params_of_t x f Midpoint n_step))
    = (2 * Z.to_nat n_step)%nat
  ∧ rate_evaluations
      (trace (StateOdeIntegrateFast params_of_t x f RK4_38 n_step))
    = (4 * Z.to_nat n_step)%nat.
Proof.
  intros Hn.
  destruct (linspace_length (fl 0) (fl 1) n_step) as (ts & Hts & Hlen); [lia|].
  rewrite (StateOdeIntegrateFast_run Euler params_of_t f _
             Euler_returns_tuple n_step ts) by (done || lia).
  rewrite (StateOdeIntegrateFast_run Midpoint params_of_t f _
             Midpoint_returns_tuple n_step ts) by (done || lia).
  rewrite (StateOdeIntegrateFast_run RK4_38 params_of_t f _
             RK4_38_returns_tuple n_step ts) by (done || lia).
  cbn [trace snd]. rewrite <-Hlen. split_and!.
  - rewrite (rate_evaluations_orbit _ _ _ _ 1); [lia|].
    intros x' t. by rewrite Euler_run.
  - apply rate_evaluations_orbit. intros x' t. by rewrite Midpoint_run.
  - apply rate_evaluations_orbit. intros x' t. by rewrite RK4_38_run.
Qed.

End CallCounts.

(** ** What the schemes compute on simple rate equations *)

(** Equations between floats with literals, computed on the underlying
    rationals. *)
Ltac fl_calc :=
  apply Qc_is_canon;
  unfold Qcdiv, Qcminus, fl;
  repeat (cbn [this Qcplus Qcmult Qcopp Qcinv Q2Qc];
          rewrite ?Qred_correct);
  unfold inject_Z; cbn [Qinv Qnum Qden];
  try ring; try (field; repeat split; try discriminate).

Lemma fl_succ (z : Z) : fl (z + 1) = fl z + fl 1.
Proof.
  apply Qc_is_canon. unfold fl. simpl.
  rewrite !Qred_correct, inject_Z_plus. reflexivity.
Qed.

Lemma fl_of_nat_S (k : nat) : fl (Z.of_nat (S k)) = fl (Z.of_nat k) + fl 1.
Proof. rewrite Nat2Z.inj_succ. apply fl_succ. Qed.

Section ScalarRuns.

Context {Params Aux : Type}.
Implicit Types (params_of_t : float → Params) (x c lam : float).
Implicit Types (f : Params → float → Aux * float) (Dt : float).

(** One step on a constant derivative. *)
Lemma constant_rate_new_state params_of_t x (t0 : float) f Dt c :
  (∀ p y, (f p y).2 = c) →
  new_state (Euler params_of_t x t0 f Dt) = Some (x + Dt * c)
  ∧ new_state (Midpoint params_of_t x t0 f Dt) = Some (x + Dt * c)
  ∧ new_state (RK4 params_of_t x t0 f Dt) = Some (x + Dt * c)
  ∧ new_state (RK4_38 params_of_t x t0 f Dt) = Some (x + Dt * c).
Proof.
  intros Hc. rewrite Euler_run, Midpoint_run, RK4_run, RK4_38_run.
  unfold new_state. cbn [outcome fst]. rewrite !Hc.
  cbn [aadd asub smul float_array].
  split_and!; apply (f_equal Some); fl_calc.
Qed.

(** X7.  On a rate equation whose derivative is the constant [c], one step
    of each of the four schemes moves a scalar state by exactly [Dt·c]: the
    weights of every tableau add up to one. *)
Theorem X7_constant_rate_step params_of_t x (t0 : float) f Dt c :
  (∀ p y, (f p y).2 = c) →
  new_state (Euler params_of_t x t0 f Dt) = Some (x + Dt * c)
  ∧ new_state (Midpoint params_of_t x t0 f Dt) = Some (x + Dt * c)
  ∧ new_state (RK4 params_of_t x t0 f Dt) = Some (x + Dt * c)
  ∧ new_state (RK4_38 params_of_t x t0 f Dt) = Some (x + Dt * c).
Proof.
  intros Hc. rewrite Euler_run, Midpoint_run, RK4_run, RK4_38_run.
  unfold new_state. cbn [outcome fst]. rewrite !Hc.
  cbn [aadd asub smul float_array].
  split_and!; apply (f_equal Some); fl_calc.
Qed.

(** X8.  On the linear rate equation [dx/dt = lam·x] one step multiplies a
    scalar state by the stability polynomial of the scheme in [z = lam·Dt]:
    [1 + z] for [Euler], [1 + z + z²/2] for [Midpoint] and
    [1 + z + z²/2 + z³/6 + z⁴/24] for both [RK4] and [RK4_38], which
    therefore reach the same state. *)
Theorem X8_linear_rate_step params_of_t x (t0 : float) f Dt lam :
  (∀ p y, (f p y).2 = lam * y) →
  let z := lam * Dt in
  new_state (Euler params_of_t x t0 f Dt) = Some (x * (fl 1 + z))
  ∧ new_state (Midpoint params_of_t x t0 f Dt)
    = Some (x * (fl 1 + z + z * z / fl 2))
  ∧ new_state (RK4 params_of_t x t0 f Dt)
    = Some (x * (fl 1 + z + z * z / fl 2 + z * z * z / fl 6
                 + z * z * z * z / fl 24))
  ∧ new_state (RK4_38 params_of_t x t0 f Dt)
    = new_state (RK4 params_of_t x t0 f Dt).
Proof.
  intros Hlin z. subst z.
  rewrite Euler_run, Midpoint_run, RK4_run, RK4_38_run.
  unfold new_state. cbn [outcome fst]. rewrite !Hlin.
  cbn [aadd asub smul float_array].
  split_and!; apply (f_equal Some); fl_calc.
Qed.

(** X9.  On the rate equation [dx/dt = t] (the parameters are the time, the
    derivative is the parameter) the exact step is [x + Dt·t0 + Dt²/2].
    [Midpoint] takes it exactly, [Euler] misses the quadratic term, and the
    shift of the last stage by [DT_OPEN_SET_EPS] makes [RK4] fall short by
    [Dt·ε/6] and [RK4_38] by [Dt·ε/8]. *)
Theorem X9_clock_rate_step (f : float → float → Aux * float) x
    (t0 : float) Dt :
  (∀ p y, (f p y).2 = p) →
  let exact := x + Dt * t0 + Dt * Dt / fl 2 in
  new_state (Euler (λ t, t) x t0 f Dt) = Some (x + Dt * t0)
  ∧ new_state (Midpoint (λ t, t) x t0 f Dt) = Some exact
  ∧ new_state (RK4 (λ t, t) x t0 f Dt)
    = Some (exact - Dt * DT_OPEN_SET_EPS / fl 6)
  ∧ new_state (RK4_38 (λ t, t) x t0 f Dt)
    = Some (exact - Dt * DT_OPEN_SET_EPS / fl 8).
Proof.
  intros Hclock exact. subst exact.
  rewrite Euler_run, Midpoint_run, RK4_run, RK4_38_run.
  unfold new_state. cbn [outcome fst]. rewrite !Hclock.
  cbn [aadd asub smul float_array]. unfold DT_OPEN_SET_EPS.
  split_and!; apply (f_equal Some); fl_calc.
Qed.

(** A run that adds [dt·c] at every step. *)
Lemma foldl_constant_step (scheme : @IntegrationScheme Params Aux float)
    params_of_t f (dt : float) c ts x :
  (∀ t y, next_state scheme params_of_t f dt t y = y + dt * c) →
  foldl (λ y t, next_state scheme params_of_t f dt t y) x ts
  = x + fl (Z.of_nat (length ts)) * (dt * c).
Proof.
  intros Hstep. revert x. induction ts as [|t ts IH]; intros x.
  - cbn [foldl length]. change (fl (Z.of_nat 0)) with 0. ring.
  - cbn [foldl length]. rewrite IH, Hstep, fl_of_nat_S.
    change (fl 1) with 1. ring.
Qed.

Lemma next_state_new_state (scheme : @IntegrationScheme Params Aux float)
    params_of_t f (dt t : float) x x' :
  returns_tuple scheme →
  new_state (scheme params_of_t x t f dt) = Some x' →
  next_state scheme params_of_t f dt t x = x'.
Proof.
  intros Htuple. unfold new_state, next_state.
  destruct (Htuple params_of_t x t f dt) as (state & y & ->).
  by intros [= ->].
Qed.

(** X10.  Integrating a constant derivative [c] over the unit interval is
    exact: for every [n_step >= 1], [StateOdeIntegrateFast] with [Euler],
    [Midpoint] or [RK4_38] returns [x + c] on a scalar state, whatever the
    grid is. *)
Theorem X10_constant_rate_run params_of_t x f c (n_step : Z) :
  (1 ≤ n_step)%Z →
  (∀ p y, (f p y).2 = c) →
  outcome (StateOdeIntegrateFast params_of_t x f Euler n_step) = Ok (x + c)
  ∧ outcome (StateOdeIntegrateFast params_of_t x f Midpoint n_step)
    = Ok (x + c)
  ∧ outcome (StateOdeIntegrateFast params_of_t x f RK4_38 n_step)
    = Ok (x + c).
Proof.
  intros Hn Hc.
  destruct (linspace_length (fl 0) (fl 1) n_step) as (ts & Hts & Hlen); [lia|].
  assert (Hsum : ∀ y, y + fl (Z.of_nat (length ts)) * (fl 1 / fl n_step * c)
                      = y + c).
  { intros y. rewrite Hlen, Z2Nat.id by lia.
    assert (fl n_step ≠ 0) by (apply fl_nonzero; lia). fl_field. }
  rewrite (StateOdeIntegrateFast_run Euler params_of_t f _
             Euler_returns_tuple n_step ts) by (done || lia).
  rewrite (StateOdeIntegrateFast_run Midpoint params_of_t f _
             Midpoint_returns_tuple n_step ts) by (done || lia).
  rewrite (StateOdeIntegrateFast_run RK4_38 params_of_t f _
             RK4_38_returns_tuple n_step ts) by (done || lia).
  cbn [outcome fst].
  split_and!; apply (f_equal Ok); rewrite <-(Hsum x);
    apply foldl_constant_step; intros t y.
  - apply next_state_new_state; [apply Euler_returns_tuple|].
    by destruct (constant_rate_new_state params_of_t y t f
                   (fl 1 / fl n_step) c Hc) as (? & _).
  - apply next_state_new_state; [apply Midpoint_returns_tuple|].
    by destruct (constant_rate_new_state params_of_t y t f
                   (fl 1 / fl n_step) c Hc) as (_ & ? & _).
  - apply next_state_new_state; [apply RK4_38_returns_tuple|].
    by destruct (constant_rate_new_state params_of_t y t f
                   (fl 1 / fl n_step) c Hc) as (_ & _ & _ & ?).
Qed.

End ScalarRuns.

(** ** The last step of a run *)

Lemma fl_pos (n : Z) : (0 < n)%Z → 0 < fl n.
Proof.
  intros Hn. unfold Qclt, fl. cbn [this Q2Qc]. rewrite !Qred_correct.
  unfold Qlt, inject_Z. cbn [Qnum Qden]. lia.
Qed.

Lemma dt_pos (n : Z) : (0 < n)%Z → 0 < fl 1 / fl n.
Proof.
  intros Hn. unfold Qcdiv. apply Qcmult_pos_pos; [done|].
  by apply Qcinv_pos, fl_pos.
Qed.

Lemma linspace_last (num : Z) :
  (2 ≤ num)%Z →
  ∃ ts, onp.linspace (fl 0) (fl 1) num = Ok ts
        ∧ length ts = Z.to_nat num
        ∧ last ts = Some (fl 1).
Proof.
  intros Hnum.
  destruct (linspace_unit num Hnum) as (ts & Hts & Hlen & Hgrid).
  exists ts. split_and!; [done..|].
  rewrite last_lookup.
  assert (is_Some (ts !! Nat.pred (length ts))) as [t Ht].
  { apply lookup_lt_is_Some. lia. }
  rewrite Ht. f_equal. rewrite (Hgrid _ _ Ht), Hlen.
  replace (Z.of_nat (Nat.pred (Z.to_nat num))) with (num - 1)%Z by lia.
  assert (fl (num - 1) ≠ 0) by (apply fl_nonzero; lia).
  fl_field.
Qed.

Section LastStep.

Context {Params Aux X : Type} `{ArrayOps X}.
Implicit Types (scheme : @IntegrationScheme Params Aux X).
Implicit Types (params_of_t : float → Params) (x : X).
Implicit Types (f : Params → X → Aux * X).

Lemma orbit_calls_last scheme params_of_t f (dt : float) ts x (t : float) :
  last ts = Some t →
  ∃ xi, last (orbit_calls scheme params_of_t f dt ts x)
        = Some (SchemeCall xi t dt (trace (scheme params_of_t xi t f dt))).
Proof.
  rewrite !last_lookup, length_orbit_calls. intros Ht.
  destruct (orbit_lookup_step scheme params_of_t f dt ts x _ t Ht)
    as (xi & _ & _ & Hc).
  by exists xi.
Qed.

(** X11.  For [n_step >= 2] the scheme call that ends a run starts at
    [t = 1.0], so its evaluations of [params_of_t] leave the unit interval:
    with [Euler] the run ends by asking [params_of_t(1.0)], and with
    [Midpoint] by asking [params_of_t(1.0)] and then
    [params_of_t(1.0 + 0.5/n_step)]. *)
Theorem X11_last_step_queries params_of_t x f (n_step : Z) :
  (2 ≤ n_step)%Z →
  (∃ c, last (trace (StateOdeIntegrateFast params_of_t x f Euler n_step))
        = Some c
        ∧ param_queries (call_events c) = [fl 1])
  ∧ (∃ c, last (trace (StateOdeIntegrateFast params_of_t x f Midpoint n_step))
          = Some c
          ∧ param_queries (call_events c)
            = [fl 1; fl 1 + fl 1 / fl 2 * (fl 1 / fl n_step)])
  ∧ fl 1 < fl 1 + fl 1 / fl 2 * (fl 1 / fl n_step).
Proof.
  intros Hn.
  destruct (linspace_last n_step Hn) as (ts & Hts & Hlen & Hlast).
  rewrite (StateOdeIntegrateFast_run Euler params_of_t f _
             Euler_returns_tuple n_step ts) by (done || lia).
  rewrite (StateOdeIntegrateFast_run Midpoint params_of_t f _
             Midpoint_returns_tuple n_step ts) by (done || lia).
  cbn [trace snd]. split_and!.
  - destruct (orbit_calls_last Euler params_of_t f (fl 1 / fl n_step) ts x
                (fl 1) Hlast) as [xi ->].
    eexists. split; [done|]. cbn [call_events]. by rewrite Euler_run.
  - destruct (orbit_calls_last Midpoint params_of_t f (fl 1 / fl n_step) ts x
                (fl 1) Hlast) as [xi ->].
    eexists. split; [done|]. cbn [call_events]. by rewrite Midpoint_run.
  - rewrite <-(Qcplus_0_r (fl 1)) at 1. apply Qcplus_lt_mono_l.
    apply Qcmult_pos_pos; [done|]. apply dt_pos. lia.
Qed.

End LastStep.

(** ** The helpers of refine_train *)

Section RefineTrain.

Import refine_train.
Implicit Types (optimizer groups : list (gmap string float)).
Implicit Types (lr lr_decay_rate : float) (decayEpoch : list Z).

(** X12.  [count_parameters] adds up over the parameters of the parts of a
    model, counts no frozen parameter, and never exceeds the total number
    of elements, which it equals when every parameter requires a
    gradient. *)
Theorem X12_count_parameters (ps qs : list param) :
  count_parameters (ps ++ qs) = (count_parameters ps + count_parameters qs)%nat
  ∧ (count_parameters ps ≤ sum_list (numel <$> ps))%nat
  ∧ (Forall (λ p, requires_grad p = true) ps →
     count_parameters ps = sum_list (numel <$> ps))
  ∧ (Forall (λ p, requires_grad p = false) ps → count_parameters ps = 0%nat).
Proof.
  unfold count_parameters. split_and!.
  - by rewrite filter_app, fmap_app, sum_list_with_app.
  - induction ps as [|p ps IH]; [done|].
    rewrite filter_cons. case_decide; csimpl; lia.
  - induction 1 as [|p ps Hp _ IH]; [done|].
    rewrite filter_cons_True by done. csimpl. by rewrite IH.
  - induction 1 as [|p ps Hp _ IH]; [done|].
    rewrite filter_cons_False; [done|]. by rewrite Hp.
Qed.

Lemma decay_lr_insert lr_decay_rate (g : gmap string float) lr :
  g !! "lr" = Some lr →
  decay_lr lr_decay_rate g = <["lr" := lr * lr_decay_rate]> g
  ∧ decay_line lr_decay_rate g = Print "lr decay update" (lr * lr_decay_rate).
Proof.
  intros Hlr. unfold decay_lr, decay_line. rewrite Hlr. split; [|done].
  rewrite <-(insert_id g "lr" lr) at 1 by done.
  by rewrite alter_insert_eq.
Qed.

Lemma decay_groups_ok lr_decay_rate groups :
  Forall (λ g, is_Some (g !! "lr")) groups →
  decay_groups lr_decay_rate groups
  = (Ok tt, decay_lr lr_decay_rate <$> groups,
     decay_line lr_decay_rate <$> groups).
Proof.
  induction 1 as [|g groups [lr Hlr] _ IH]; [done|].
  cbn [decay_groups]. rewrite Hlr, IH. csimpl.
  by destruct (decay_lr_insert lr_decay_rate g lr Hlr) as [-> ->].
Qed.

Lemma decay_groups_partial lr_decay_rate pre g post :
  Forall (λ g, is_Some (g !! "lr")) pre →
  g !! "lr" = None →
  decay_groups lr_decay_rate (pre ++ g :: post)
  = (Raise (KeyError "lr"), (decay_lr lr_decay_rate <$> pre) ++ g :: post,
     decay_line lr_decay_rate <$> pre).
Proof.
  intros Hpre Hg. induction Hpre as [|g0 pre [lr Hlr] _ IH].
  - simpl. by rewrite Hg.
  - cbn [app decay_groups]. rewrite Hlr, IH. csimpl.
    by destruct (decay_lr_insert lr_decay_rate g0 lr Hlr) as [-> ->].
Qed.

(** X13.  When every param group has an [lr], [exp_lr_scheduler] does not
    raise: at an epoch of [decayEpoch] it multiplies the [lr] of every
    group by [lr_decay_rate], leaves every other option and the number of
    groups as they are, and prints one line per group; at any other epoch
    it changes and prints nothing. *)
Theorem X13_scheduler_decays optimizer (epoch : Z) lr_decay_rate decayEpoch :
  Forall (λ g, is_Some (g !! "lr")) optimizer →
  (epoch ∈ decayEpoch →
   exp_lr_scheduler optimizer epoch lr_decay_rate decayEpoch
   = (Ok tt, alter (λ lr, lr * lr_decay_rate) "lr" <$> optimizer,
      (λ g, Print "lr decay update" (default 0 (g !! "lr") * lr_decay_rate))
        <$> optimizer))
  ∧ (epoch ∉ decayEpoch →
     exp_lr_scheduler optimizer epoch lr_decay_rate decayEpoch
     = (Ok tt, optimizer, [])).
Proof.
  intros Hlr. unfold exp_lr_scheduler. split; intros Hepoch.
  - rewrite bool_decide_eq_true_2 by done. by apply decay_groups_ok.
  - by rewrite bool_decide_eq_false_2.
Qed.

(** X14.  When a param group has no [lr], [exp_lr_scheduler] raises
    [KeyError] at an epoch of [decayEpoch], but only after it has decayed,
    in place, every group in front of that one: the optimizer is left half
    updated. *)
Theorem X14_scheduler_half_update pre g post (epoch : Z) lr_decay_rate
    decayEpoch :
  epoch ∈ decayEpoch →
  Forall (λ g, is_Some (g !! "lr")) pre →
  g !! "lr" = None →
  exp_lr_scheduler (pre ++ g :: post) epoch lr_decay_rate decayEpoch
  = (Raise (KeyError "lr"),
     (alter (λ lr, lr * lr_decay_rate) "lr" <$> pre) ++ g :: post,
     (λ g, Print "lr decay update" (default 0 (g !! "lr") * lr_decay_rate))
       <$> pre).
Proof.
  intros Hepoch Hpre Hg. unfold exp_lr_scheduler.
  rewrite bool_decide_eq_true_2 by done. by apply decay_groups_partial.
Qed.

(** What [decay_groups] leaves differs from what it was given in the [lr]
    entries only. *)
Lemma decay_groups_reset lr_decay_rate lr groups :
  (λ g, <["lr" := lr]> g) <$> (decay_groups lr_decay_rate groups).1.2
  = (λ g, <["lr" := lr]> g) <$> groups.
Proof.
  induction groups as [|g groups IH]; [done|].
  cbn [decay_groups]. destruct (g !! "lr") as [lr0|]; [|done].
  destruct (decay_groups lr_decay_rate groups) as [[r groups'] out].
  cbn [fst snd] in *. csimpl. by rewrite IH, insert_insert_eq.
Qed.

(** X15.  [reset_lr] never raises: it sets the [lr] of every param group,
    creating the entry where there is none, and leaves every other option
    and the number of groups as they are.  It undoes whatever
    [exp_lr_scheduler] did before, also a half update: resetting after the
    scheduler leaves the param groups that resetting at once leaves. *)
Theorem X15_reset_lr optimizer lr (epoch : Z) lr_decay_rate decayEpoch :
  (reset_lr optimizer lr).1.1 = Ok tt
  ∧ length (reset_lr optimizer lr).1.2 = length optimizer
  ∧ (∀ i g, optimizer !! i = Some g →
       ∃ g', (reset_lr optimizer lr).1.2 !! i = Some g'
             ∧ g' !! "lr" = Some lr
             ∧ ∀ k, k ≠ "lr" → g' !! k = g !! k)
  ∧ (reset_lr
       (exp_lr_scheduler optimizer epoch lr_decay_rate decayEpoch).1.2 lr).1.2
    = (reset_lr optimizer lr).1.2.
Proof.
  unfold reset_lr. cbn [fst snd]. split_and!.
  - done.
  - by rewrite length_fmap.
  - intros i g Hg. exists (<["lr" := lr]> g).
    rewrite list_lookup_fmap, Hg. split_and!; [done|..].
    + by rewrite lookup_insert_eq.
    + intros k Hk. by rewrite lookup_insert_ne.
  - unfold exp_lr_scheduler. case_bool_decide; [|done].
    apply decay_groups_reset.
Qed.

Lemma decay_lr_has_lr lr_decay_rate groups :
  Forall (λ g, is_Some (g !! "lr")) groups →
  Forall (λ g, is_Some (g !! "lr")) (decay_lr lr_decay_rate <$> groups).
Proof.
  intros Hlr. apply Forall_fmap. eapply Forall_impl; [done|].
  intros g [lr Hg]. simpl. unfold decay_lr. rewrite lookup_alter_eq, Hg.
  by eexists.
Qed.

Lemma schedule_epochs_ok epochs lr_decay_rate decayEpoch optimizer :
  Forall (λ g, is_Some (g !! "lr")) optimizer →
  schedule_epochs epochs lr_decay_rate decayEpoch optimizer
  = (Ok tt,
     alter (λ lr, lr * lr_decay_rate
                       ^ length (filter (λ e, e ∈ decayEpoch) epochs))
       "lr" <$> optimizer).
Proof.
  revert optimizer. induction epochs as [|e epochs IH]; intros optimizer Hlr.
  - cbn [schedule_epochs]. f_equal. rewrite <-(list_fmap_id optimizer) at 1.
    apply list_fmap_ext. intros _ g _. simpl. symmetry. apply alter_id.
    intros lr _. simpl. ring.
  - cbn [schedule_epochs]. unfold exp_lr_scheduler.
    rewrite filter_cons. case_bool_decide as He.
    + rewrite decay_groups_ok by done. rewrite decide_True by done.
      rewrite IH by by apply decay_lr_has_lr. f_equal.
      rewrite <-list_fmap_compose. apply list_fmap_ext. intros _ g _.
      simpl. unfold decay_lr. apply map_eq. intros k.
      destruct (decide (k = "lr")) as [->|Hk].
      * rewrite !lookup_alter_eq. destruct (g !! "lr") as [lr|]; [|done].
        simpl. f_equal. ring.
      * by rewrite !lookup_alter_ne.
    + rewrite decide_False by done. by apply IH.
Qed.

(** X16.  Calling the scheduler for the epochs [0, ..., N_epochs - 1] in
    turn, on param groups that all have an [lr], multiplies every [lr] by
    [lr_decay_rate ^ k], where [k] is the number of these epochs that are
    in [decayEpoch] (an epoch listed twice counts once), and changes
    nothing else. *)
Theorem X16_schedule_epochs (N_epochs : Z) lr_decay_rate decayEpoch optimizer :
  Forall (λ g, is_Some (g !! "lr")) optimizer →
  let k := length (filter (λ e, e ∈ decayEpoch) (seqZ 0 N_epochs)) in
  ∃ optimizer',
    schedule_epochs (seqZ 0 N_epochs) lr_decay_rate decayEpoch optimizer
    = (Ok tt, optimizer')
    ∧ length optimizer' = length optimizer
    ∧ ∀ i g, optimizer !! i = Some g →
        ∃ g', optimizer' !! i = Some g'
              ∧ g' !! "lr" = (λ lr, lr * lr_decay_rate ^ k) <$> g !! "lr"
              ∧ ∀ key, key ≠ "lr" → g' !! key = g !! key.
Proof.
  intros Hlr k. rewrite schedule_epochs_ok by done. eexists. split; [done|].
  split; [by rewrite length_fmap|].
  intros i g Hg. eexists. rewrite list_lookup_fmap, Hg. split; [done|].
  split; [by rewrite lookup_alter_eq|].
  intros key Hkey. by rewrite lookup_alter_ne.
Qed.

End RefineTrain.

(** ** The further properties on concrete inputs *)


Lemma X3_witness :
  returns_tuple (Euler (Params:=unit) (Aux:=unit) (X:=float))
  ∧ ∃ state x',
      outcome (Euler unit_params (fl 1) (fl 0) decay (fl 1))
      = Ok (RetTuple state x')
      ∧ outcome (StateOdeIntegrateWithPoints unit_params (fl 1) decay Euler 1)
        = Ok [fl 1; x'].
Proof.
  split; [apply Euler_returns_tuple|].
  destruct (X3_single_step Euler unit_params (fl 1) decay Euler_returns_tuple)
    as (state & x' & Hstep & _ & Hpoints).
  exists state, x'. split; [exact Hstep|]. by rewrite Hpoints.
Defined.

Lemma X4_witness :
  (∀ a : float, arows a = None)
  ∧ (1 ≤ 3)%Z
  ∧ outcome (StateOdeIntegrateFast unit_params (fl 1) decay RK4 3)
    = Raise TypeError.
Proof.
  split; [done|]. split; [lia|].
  destruct (X4_RK4_cannot_be_driven unit_params (fl 1) decay 3)
    as [Hfast _]; [done|lia|].
  by rewrite Hfast.
Defined.

Lemma X5_witness :
  ∃ xf,
    outcome (StateOdeIntegrateFast unit_params (fl 1) decay Euler 2) = Ok xf
    ∧ length (trace (StateOdeIntegrateFast unit_params (fl 1) decay Euler 2))
      = Z.to_nat 2.
Proof.
  destruct (StateOdeIntegrateFast_returns Euler unit_params (fl 1) decay 2
              Euler_returns_tuple) as [xf Hxf]; [lia|].
  exists xf. split; [exact Hxf|].
  destruct (X5_fast_call_count Euler unit_params (fl 1) decay 2)
    as [_ Hcount].
  by destruct (Hcount xf Hxf).
Defined.

Lemma X6_witness :
  (1 ≤ 3)%Z
  ∧ rate_evaluations
      (trace (StateOdeIntegrateFast unit_params (fl 1) decay RK4_38 3))
    = (4 * Z.to_nat 3)%nat.
Proof.
  split; [lia|].
  by destruct (X6_rate_evaluations unit_params (fl 1) decay 3)
    as (_ & _ & ?); [lia|].
Defined.

Lemma X7_witness :
  (∀ (p : unit) (y : float),
     ((λ _ _, (tt, fl 1 / fl 2)) p y : unit * float).2 = fl 1 / fl 2)
  ∧ new_state (RK4_38 unit_params (fl 1) (fl 0) (λ _ _, (tt, fl 1 / fl 2))
                 (fl 1 / fl 10))
    = Some (fl 1 + fl 1 / fl 10 * (fl 1 / fl 2)).
Proof.
  split; [done|].
  by destruct (X7_constant_rate_step unit_params (fl 1) (fl 0)
                 (λ _ _, (tt, fl 1 / fl 2)) (fl 1 / fl 10) (fl 1 / fl 2))
    as (_ & _ & _ & ?).
Defined.

Lemma X8_witness :
  (∀ (p : unit) (y : float), ((λ _ y, (tt, fl 2 * y)) p y : unit * float).2
                             = fl 2 * y)
  ∧ new_state (RK4_38 unit_params (fl 1) (fl 0) (λ _ y, (tt, fl 2 * y))
                 (fl 1 / fl 10))
    = new_state (RK4 unit_params (fl 1) (fl 0) (λ _ y, (tt, fl 2 * y))
                   (fl 1 / fl 10)).
Proof.
  split; [done|].
  by destruct (X8_linear_rate_step unit_params (fl 1) (fl 0)
                 (λ _ y, (tt, fl 2 * y)) (fl 1 / fl 10) (fl 2))
    as (_ & _ & _ & ?).
Defined.

Lemma X9_witness :
  (∀ (p y : float), ((λ p _, (tt, p)) p y : unit * float).2 = p)
  ∧ new_state (Midpoint (λ t, t) (fl 1) (fl 0) (λ p _, (tt, p)) (fl 1 / fl 10))
    = Some (fl 1 + fl 1 / fl 10 * fl 0 + fl 1 / fl 10 * (fl 1 / fl 10) / fl 2).
Proof.
  split; [done|].
  by destruct (X9_clock_rate_step (λ p _, (tt, p)) (fl 1) (fl 0)
                 (fl 1 / fl 10))
    as (_ & ? & _).
Defined.

Lemma X10_witness :
  (1 ≤ 4)%Z
  ∧ (∀ (p : unit) (y : float),
       ((λ _ _, (tt, fl 1 / fl 2)) p y : unit * float).2 = fl 1 / fl 2)
  ∧ outcome (StateOdeIntegrateFast unit_params (fl 1)
               (λ _ _, (tt, fl 1 / fl 2)) RK4_38 4)
    = Ok (fl 1 + fl 1 / fl 2).
Proof.
  split; [lia|]. split; [done|].
  by destruct (X10_constant_rate_run unit_params (fl 1)
                 (λ _ _, (tt, fl 1 / fl 2)) (fl 1 / fl 2) 4)
    as (_ & _ & ?); [lia|done|].
Defined.

Lemma X11_witness :
  (2 ≤ 2)%Z
  ∧ ∃ c, last (trace (StateOdeIntegrateFast unit_params (fl 1) decay Euler 2))
         = Some c
         ∧ param_queries (call_events c) = [fl 1].
Proof.
  split; [lia|].
  by destruct (X11_last_step_queries unit_params (fl 1) decay 2)
    as (? & _); [lia|].
Defined.

Lemma X13_witness :
  Forall (λ g : gmap string float, is_Some (g !! "lr"))
    [sgd_group]
  ∧ (3%Z ∈ [3%Z; 5%Z])
  ∧ refine_train.exp_lr_scheduler [sgd_group] 3
      (fl 4 / fl 5) [3%Z; 5%Z]
    = (Ok tt,
       alter (λ lr, lr * (fl 4 / fl 5)) "lr" <$> [sgd_group],
       (λ g, refine_train.Print "lr decay update"
               (default 0 (g !! "lr") * (fl 4 / fl 5)))
         <$> [sgd_group]).
Proof.
  assert (Hlr : Forall (λ g : gmap string float, is_Some (g !! "lr"))
                  [sgd_group]).
  { apply Forall_cons. split; [|apply Forall_nil_2].
    unfold sgd_group. rewrite lookup_insert_eq. by eexists. }
  assert (Hepoch : 3%Z ∈ [3%Z; 5%Z]) by apply list_elem_of_here.
  split; [exact Hlr|]. split; [exact Hepoch|].
  destruct (X13_scheduler_decays [sgd_group] 3 (fl 4 / fl 5)
              [3%Z; 5%Z] Hlr) as [Hdecay _].
  exact (Hdecay Hepoch).
Defined.

Lemma X14_witness :
  (3%Z ∈ [3%Z; 5%Z])
  ∧ Forall (λ g : gmap string float, is_Some (g !! "lr"))
      [sgd_group]
  ∧ (∅ : gmap string float) !! "lr" = None
  ∧ (refine_train.exp_lr_scheduler ([sgd_group] ++ [∅]) 3
       (fl 4 / fl 5) [3%Z; 5%Z]).1.1
    = Raise (KeyError "lr").
Proof.
  assert (Hlr : Forall (λ g : gmap string float, is_Some (g !! "lr"))
                  [sgd_group]).
  { apply Forall_cons. split; [|apply Forall_nil_2].
    unfold sgd_group. rewrite lookup_insert_eq. by eexists. }
  assert (Hepoch : 3%Z ∈ [3%Z; 5%Z]) by apply list_elem_of_here.
  split; [exact Hepoch|]. split; [exact Hlr|]. split; [done|].
  by rewrite (X14_scheduler_half_update [sgd_group] ∅ [] 3
                (fl 4 / fl 5) [3%Z; 5%Z] Hepoch Hlr).
Defined.

Lemma X16_witness :
  Forall (λ g : gmap string float, is_Some (g !! "lr"))
    [sgd_group]
  ∧ ∃ optimizer',
      refine_train.schedule_epochs (seqZ 0 4) (fl 4 / fl 5) [3%Z; 5%Z]
        [sgd_group]
      = (Ok tt, optimizer')
      ∧ length optimizer' = 1%nat.
Proof.
  assert (Hlr : Forall (λ g : gmap string float, is_Some (g !! "lr"))
                  [sgd_group]).
  { apply Forall_cons. split; [|apply Forall_nil_2].
    unfold sgd_group. rewrite lookup_insert_eq. by eexists. }
  split; [exact Hlr|].
  destruct (X16_schedule_epochs 4 (fl 4 / fl 5) [3%Z; 5%Z]
              [sgd_group] Hlr)
    as (optimizer' & Hrun & Hlen & _).
  exists optimizer'. by split.
Defined.

(** ** Rounding and the step interval *)


(** On the grid of a hundred steps the times of a first [RK4] step stay
    inside the interval, also in binary64. *)
Example binary64_first_step_of_hundred :
  forallb (b64.in_step (b64.of_int 0) (b64.div (b64.of_int 1) (b64.of_int 100)))
    (b64.RK4_queries (b64.of_int 0) (b64.div (b64.of_int 1) (b64.of_int 100)))
  = true.
Proof. vm_compute. reflexivity. Qed.

(** ** The recording driver on the scheme of the table that returns no pair *)

Section PointsRK4.

Context {Params Aux X : Type} `{ArrayOps X}.

(** C7.  The snapshots promised for every [N >= 1] are not returned when
    the scheme is [RK4], the scheme that [SCHEME_TABLE] gives for ["RK4"]:
    on a state that cannot be iterated (a Python float, a 0-d array),
    [StateOdeIntegrateWithPoints] raises [TypeError] at the first
    [state, x = scheme(...)], for every [N >= 1], and returns no list at
    all.  (For the schemes that return a pair the [N + 1] snapshots are
    returned: [points_snapshots_of_tuples].) *)
Theorem C7_points_RK4_raises (params_of_t : float → Params) (x : X)
    (f : Params → X → Aux * X) (N : Z) :
  (∀ a : X, arows a = None) →
  (1 ≤ N)%Z →
  SCHEME_TABLE_getitem "RK4" = Ok (RK4 (Params:=Params) (Aux:=Aux))
  ∧ outcome (StateOdeIntegrateWithPoints params_of_t x f RK4 N)
    = Raise TypeError
  ∧ (∀ xs, outcome (StateOdeIntegrateWithPoints params_of_t x f RK4 N)
           ≠ Ok xs)
  ∧ length (trace (StateOdeIntegrateWithPoints params_of_t x f RK4 N))
    = 1%nat.
Proof.
  intros Hrows HN.
  assert (Hrun : ∃ call,
    StateOdeIntegrateWithPoints params_of_t x f RK4 N
    = (Raise TypeError, [call])).
  { destruct (linspace_head N HN) as (ts & Hts & _).
    unfold StateOdeIntegrateWithPoints, float_div_int, lift.
    destruct (decide (N = 0%Z)) as [|_]; [lia|].
    rewrite !bind_ok, Hts, !bind_ok. cbn [for_each record_step].
    assert (Hstep : ∃ call,
      scheme_step RK4 params_of_t f (fl 1 / fl N) (fl 0) x
      = (Raise TypeError, [call])).
    { unfold scheme_step, tell, lift. rewrite bind_ok, RK4_run.
      cbn [outcome trace fst snd]. rewrite bind_ok.
      cbn [unpack_pair]. rewrite Hrows. by eexists. }
    destruct Hstep as [call ->]. exists call.
    rewrite !bind_raise. cbn [outcome trace fst snd app].
    by rewrite ?bind_raise. }
  destruct Hrun as [call ->]. by split_and!.
Qed.

End PointsRK4.

Lemma C7_RK4_witness :
  (∀ a : float, arows a = None)
  ∧ (1 ≤ 3)%Z
  ∧ outcome (StateOdeIntegrateWithPoints unit_params (fl 1) decay RK4 3)
    = Raise TypeError.
Proof.
  split; [done|]. split; [lia|].
  by destruct (C7_points_RK4_raises unit_params (fl 1) decay 3)
    as (_ & ? & _); [done|lia|].
Defined.
